(** * unit3d-terminal-chat: the message pipeline of [chat.py]

    A shallow embedding of [parse_bbcode], [ChatMonitor.process_messages],
    [ChatMonitor.monitor_live] and the keystroke step of [curses_main],
    with the properties of the specification stated over it. *)

From Stdlib Require Import NArith ZArith String Ascii Lia.
From stdpp Require Import base option list gmap sets.

Local Open Scope N_scope.

(** ** Python strings

    A Python [str] is a sequence of Unicode code points; a code point is
    a number of [N]. *)

Abbreviation pystr := (list N).

(** A literal of the source, written as a Rocq string of ASCII characters. *)
Definition py (s : string) : pystr := map N_of_ascii (list_ascii_of_string s).
Arguments py s%_string : simpl never.

(** [str.isspace] on one code point: the characters [str.strip()] removes. *)
Definition isspace (c : N) : bool :=
  ((9 <=? c) && (c <=? 13)) || ((28 <=? c) && (c <=? 32))
  || (c =? 133) || (c =? 160) || (c =? 5760)
  || ((8192 <=? c) && (c <=? 8202))
  || (c =? 8232) || (c =? 8233) || (c =? 8239) || (c =? 8287) || (c =? 12288).

Fixpoint lstrip (s : pystr) : pystr :=
  match s with
  | [] => []
  | c :: t => if isspace c then lstrip t else s
  end.

Definition rstrip (s : pystr) : pystr := rev (lstrip (rev s)).

(** [s.strip()] *)
Definition strip (s : pystr) : pystr := rstrip (lstrip s).

(** Truth value of a string: [if s] holds when [s] is not empty. *)
Definition truthy (s : pystr) : bool :=
  match s with [] => false | _ :: _ => true end.

(** ** Regular expressions of [parse_bbcode]

    A match object keeps the captured groups and the text after the match. *)

Record Match := { groups : list pystr; rest : pystr }.

(** [m.group(i)], for [i >= 1]. *)
Definition group (m : Match) (i : nat) : pystr := nth (i - 1)%nat (groups m) [].

(** A literal of a pattern, matched at the start of [s]: the text after it. *)
Fixpoint strip_prefix (p s : pystr) : option pystr :=
  match p, s with
  | [], _ => Some s
  | _ :: _, [] => None
  | a :: p', b :: s' => if a =? b then strip_prefix p' s' else None
  end.

(** [(.*?)close] under [re.DOTALL]: the lazy quantifier takes as few
    characters (of any kind, newlines too) as lets [close] match, so the
    group ends at the first place where [close] starts. *)
Fixpoint lazy_until (close s : pystr) {struct s} : option (pystr * pystr) :=
  match strip_prefix close s with
  | Some r => Some ([], r)
  | None =>
      match s with
      | [] => None
      | c :: t =>
          match lazy_until close t with
          | Some (g, r) => Some (c :: g, r)
          | None => None
          end
      end
  end.

(** [[^]]*]: the longest run of characters other than the closing bracket. *)
Fixpoint span_attr (s : pystr) : pystr * pystr :=
  match s with
  | [] => ([], [])
  | c :: t =>
      if c =? 93 then ([], s)
      else let '(a, r) := span_attr t in (c :: a, r)
  end.

(** A pattern [open(.*?)close] tried at the start of [s]. *)
Definition tag_re (open close : pystr) (s : pystr) : option Match :=
  match strip_prefix open s with
  | None => None
  | Some r =>
      match lazy_until close r with
      | None => None
      | Some (g, r') => Some {| groups := [g]; rest := r' |}
      end
  end.

(** [\[b\](.*?)\[/b\]] *)
Definition bold_re : pystr -> option Match := tag_re (py "[b]") (py "[/b]").

(** [\[i\](.*?)\[/i\]] *)
Definition italic_re : pystr -> option Match := tag_re (py "[i]") (py "[/i]").

(** [\[color=([^]]+)\](.*?)\[/color\]]: the attribute is one or more
    characters other than the closing bracket, and the bracket must follow. *)
Definition color_re (s : pystr) : option Match :=
  match strip_prefix (py "[color=") s with
  | None => None
  | Some r =>
      let '(a, r1) := span_attr r in
      match a, r1 with
      | _ :: _, c :: r' =>
          if c =? 93 then
            match lazy_until (py "[/color]") r' with
            | None => None
            | Some (g, r'') => Some {| groups := [a; g]; rest := r'' |}
            end
          else None
      | _, _ => None
      end
  end.

(** [re.sub(pattern, repl, s)]: scan from the left; where the pattern
    matches, emit [repl m] and go on after the match; elsewhere copy one
    character.  The replacement is not scanned again.  The recursion is on
    the text left to scan, bounded by [fuel]. *)
Fixpoint re_sub_fuel (fuel : nat) (re : pystr -> option Match)
    (repl : Match -> pystr) (s : pystr) : pystr :=
  match fuel with
  | O => s
  | S fuel' =>
      match s with
      | [] => []
      | c :: t =>
          match re s with
          | Some m => repl m ++ re_sub_fuel fuel' re repl (rest m)
          | None => c :: re_sub_fuel fuel' re repl t
          end
      end
  end.

Definition re_sub (re : pystr -> option Match) (repl : Match -> pystr)
    (s : pystr) : pystr :=
  re_sub_fuel (S (length s)) re repl s.

(** [re.search(pattern, s) is not None] *)
Fixpoint re_search (re : pystr -> option Match) (s : pystr) : bool :=
  match re s with
  | Some _ => true
  | None => match s with [] => false | _ :: t => re_search re t end
  end.

Section Upper.

(** [str.upper] maps each code point by the Unicode case tables.  For ASCII
    the mapping is written out; the table for the other code points is a
    parameter. *)
Variable unicode_upper : N -> pystr.

Definition upper_char (c : N) : pystr :=
  if (97 <=? c) && (c <=? 122) then [c - 32]
  else if c <? 128 then [c]
  else unicode_upper c.

(** [s.upper()] *)
Definition upper (s : pystr) : pystr := flat_map upper_char s.

(** ** [parse_bbcode] *)

Definition sub_bold (text : pystr) : pystr :=
  re_sub bold_re (fun m => upper (group m 1)) text.

Definition sub_italic (text : pystr) : pystr :=
  re_sub italic_re (fun m => py "_" ++ group m 1 ++ py "_") text.

Definition sub_color (text : pystr) : pystr :=
  re_sub color_re (fun m => group m 2) text.

Definition parse_bbcode (text : pystr) : pystr :=
  let text := sub_bold text in
  let text := sub_italic text in
  let text := sub_color text in
  text.

End Upper.

(** ** What selenium and BeautifulSoup hand to [process_messages]

    A tag of the parsed fragment, as far as the code reads it: its
    attributes and its descendant text nodes in document order. *)

Record Tag := { attrs : gmap pystr pystr; text_nodes : list pystr }.

(** [tag.get_text(strip=True)]: every text node is stripped, the empty ones
    are dropped and the others joined with the empty separator. *)
Definition get_text_strip (t : Tag) : pystr :=
  concat (List.filter truthy (map strip (text_nodes t))).

(** The parsed fragment seen through the three selectors of the loop body. *)
Record Soup := {
  username_elem : option Tag;  (* select_one("header address a span") *)
  time_elem : option Tag;      (* select_one("header time") *)
  content_elem : option Tag    (* select_one("section.chatbox-message__content") *)
}.

(** One entry of [new_msgs_html] as [BeautifulSoup(msg_html, 'html.parser')]
    and the selectors treat it: a document, or an exception (given by its
    message). *)
Inductive RawFragment :=
  | Html (soup : Soup)
  | Unparsable (e : pystr).

(** The time of day of a [datetime], which is all [strftime("%H:%M:%S")]
    reads. *)
Record datetime := { hour : N; minute : N; second : N }.

(** A field below 100 as two decimal digits, padded with a zero. *)
Definition two_digits (n : N) : pystr := [48 + n / 10; 48 + n mod 10].

(** [dt.strftime("%H:%M:%S")] *)
Definition strftime_HMS (dt : datetime) : pystr :=
  two_digits (hour dt) ++ py ":" ++ two_digits (minute dt) ++ py ":"
  ++ two_digits (second dt).

(** The entry of the queue: [(display_time, username, content)]. *)
Record ChatRecord := {
  display_time : pystr;
  username : pystr;
  content : pystr
}.

(** ** State and effects of the monitor *)

Inductive effect :=
  | SeenAdd (key : pystr)       (* self.seen_messages.add(key) *)
  | QueuePut (r : ChatRecord)   (* self.queue.put(r) *)
  | LogError (msg : pystr).     (* logging.error(msg) *)

(** [seen_messages] and the records put on [queue] so far, with the
    history of the effects in the order they happened. *)
Record state := {
  seen_messages : gset pystr;
  queue : list ChatRecord;
  trace : list effect
}.

(** A statement returns a value or raises an exception (given by its
    message); either way it leaves a state. *)
Inductive outcome (A : Type) :=
  | Return (a : A)
  | Raise (e : pystr).
Arguments Return {A} a.
Arguments Raise {A} e.

Definition M (A : Type) : Type := state -> outcome A * state.

Definition ret {A} (a : A) : M A := fun st => (Return a, st).

Definition bind {A B} (m : M A) (k : A -> M B) : M B :=
  fun st =>
    match m st with
    | (Return a, st') => k a st'
    | (Raise e, st') => (Raise e, st')
    end.

Notation "'let*' x := m 'in' k" := (bind m (fun x => k))
  (at level 10, x name, m at level 100, k at level 200).
Notation "m ;;; k" := (bind m (fun _ => k))
  (at level 100, k at level 200, right associativity).

(** [try: body  except Exception as e: handler(e)] *)
Definition try_except (body : M unit) (handler : pystr -> M unit) : M unit :=
  fun st =>
    match body st with
    | (Return tt, st') => (Return tt, st')
    | (Raise e, st') => handler e st'
    end.

(** [for x in l: body(x)] *)
Fixpoint for_each {A} (body : A -> M unit) (l : list A) : M unit :=
  match l with
  | [] => ret tt
  | x :: l' => body x ;;; for_each body l'
  end.

Definition lift {A} (o : outcome A) : M A := fun st => (o, st).

Definition get_seen : M (gset pystr) := fun st => (Return (seen_messages st), st).

Definition seen_add (key : pystr) : M unit := fun st =>
  (Return tt, {| seen_messages := {[ key ]} ∪ seen_messages st;
                 queue := queue st;
                 trace := trace st ++ [SeenAdd key] |}).

Definition queue_put (r : ChatRecord) : M unit := fun st =>
  (Return tt, {| seen_messages := seen_messages st;
                 queue := queue st ++ [r];
                 trace := trace st ++ [QueuePut r] |}).

Definition logging_error (msg : pystr) : M unit := fun st =>
  (Return tt, {| seen_messages := seen_messages st;
                 queue := queue st;
                 trace := trace st ++ [LogError msg] |}).

(** [colorama.Fore.RED] *)
Definition Fore_RED : pystr := [27] ++ py "[31m".

(** ** Reading the history of effects *)

(** The state after [seen_add k] and then [queue_put r]. *)
Definition accept (k : pystr) (r : ChatRecord) (st : state) : state :=
  {| seen_messages := {[ k ]} ∪ seen_messages st;
     queue := queue st ++ [r];
     trace := trace st ++ [SeenAdd k; QueuePut r] |}.

(** The state after [logging_error msg]. *)
Definition logged (msg : pystr) (st : state) : state :=
  {| seen_messages := seen_messages st;
     queue := queue st;
     trace := trace st ++ [LogError msg] |}.

(** The fragment parsed to [soup] was in a batch that one of the polls
    returned. *)
Definition polled (polls : list (outcome (list RawFragment))) (soup : Soup)
    : Prop :=
  exists l, Return l ∈ polls /\ Html soup ∈ l.

(** The logged errors of a history. *)
Definition is_log_error (e : effect) : bool :=
  match e with LogError _ => true | _ => false end.

(** The state [st'] holds all that [st] held. *)
Definition grows (st st' : state) : Prop :=
  seen_messages st ⊆ seen_messages st'
  /\ queue st `prefix_of` queue st'
  /\ trace st `prefix_of` trace st'.

(** The accepted messages of a history: each [SeenAdd] that a [QueuePut]
    follows at once, as the pair of the fingerprint and the record. *)
Fixpoint accepted (tr : list effect) : list (pystr * ChatRecord) :=
  match tr with
  | [] => []
  | SeenAdd k :: tr' =>
      match tr' with
      | QueuePut r :: _ => (k, r) :: accepted tr'
      | _ => accepted tr'
      end
  | _ :: tr' => accepted tr'
  end.

(** ** [ChatMonitor.process_messages] *)

Section Monitor.

(** The Unicode table of [str.upper], as above. *)
Variable unicode_upper : N -> pystr.

(** [datetime.fromisoformat]; [None] stands for the exception it raises. *)
Variable fromisoformat : pystr -> option datetime.

Definition BeautifulSoup (msg_html : RawFragment) : M Soup :=
  match msg_html with
  | Html soup => ret soup
  | Unparsable e => lift (Raise e)
  end.

Definition username_of (soup : Soup) : pystr :=
  match username_elem soup with
  | Some username_elem => get_text_strip username_elem
  | None => []
  end.

Definition display_time_of (soup : Soup) : pystr :=
  match time_elem soup with
  | Some time_elem =>
      match attrs time_elem !! py "title" with
      | Some title =>
          let timestamp := strip title in
          match fromisoformat timestamp with
          | Some dt => strftime_HMS dt
          | None => timestamp
          end
      | None => py "Unknown time"
      end
  | None => py "Unknown time"
  end.

Definition content_of (soup : Soup) : pystr :=
  match content_elem soup with
  | Some content_elem => get_text_strip content_elem
  | None => []
  end.

(** [f"{display_time}-{content}"] *)
Definition unique_key_of (display_time content : pystr) : pystr :=
  display_time ++ py "-" ++ content.

(** The body of [for msg_html in new_msgs_html]; [continue] ends it. *)
Definition loop_body (msg_html : RawFragment) : M unit :=
  let* soup := BeautifulSoup msg_html in
  let username := username_of soup in
  let display_time := display_time_of soup in
  let content := content_of soup in
  if negb (truthy content) then ret tt
  else
    let unique_key := unique_key_of display_time content in
    let* seen := get_seen in
    if decide (unique_key ∈ seen) then ret tt
    else
      seen_add unique_key ;;;
      let processed_content := parse_bbcode unicode_upper content in
      queue_put {| display_time := display_time; username := username;
                   content := processed_content |}.

(** [probe] is what [self.driver.execute_script(...)] does at this call:
    it returns the batch of new fragments or raises (a result that cannot
    be iterated raises at the [for], with the same effect). *)
Definition process_messages (probe : outcome (list RawFragment)) : M unit :=
  try_except
    (let* new_msgs_html := lift probe in
     for_each loop_body new_msgs_html)
    (fun e => logging_error (Fore_RED ++ py "Error processing messages: " ++ e)).

(** [monitor_live]: [while True: self.process_messages(); time.sleep(0.05)],
    over the probe calls of the iterations run so far. *)
Definition monitor_live (polls : list (outcome (list RawFragment))) : M unit :=
  for_each process_messages polls.

(** The fingerprint and the record the loop body computes for a document. *)
Definition key_of (soup : Soup) : pystr :=
  unique_key_of (display_time_of soup) (content_of soup).

Definition record_of (soup : Soup) : ChatRecord :=
  {| display_time := display_time_of soup;
     username := username_of soup;
     content := parse_bbcode unicode_upper (content_of soup) |}.

(** A history made of accepted messages and logged errors only: each
    [SeenAdd] is followed at once by the [QueuePut] of a record built from
    the same display time and raw content. *)
Inductive well_paired : list effect -> Prop :=
  | wp_nil : well_paired []
  | wp_accept (k : pystr) (r : ChatRecord) (c : pystr) (tr : list effect) :
      k = unique_key_of (display_time r) c ->
      content r = parse_bbcode unicode_upper c ->
      well_paired tr ->
      well_paired (SeenAdd k :: QueuePut r :: tr)
  | wp_log (msg : pystr) (tr : list effect) :
      well_paired tr -> well_paired (LogError msg :: tr).

(** What holds of the monitor between two turns of its loop: its history
    is well paired, the queue holds the records of the accepted messages,
    [seen_messages] their fingerprints, and no fingerprint was accepted
    twice. *)
Definition Inv (st : state) : Prop :=
  well_paired (trace st)
  /\ queue st = map snd (accepted (trace st))
  /\ seen_messages st = list_to_set (map fst (accepted (trace st)))
  /\ NoDup (map fst (accepted (trace st))).

(** Every accepted message of the history comes from a fragment with a
    body, among those that [P] holds of: its key and its record are the
    ones the loop body computes for that fragment. *)
Definition sourced (P : Soup -> Prop) (st : state) : Prop :=
  forall k r, (k, r) ∈ accepted (trace st) ->
    exists soup, P soup /\ content_of soup <> []
      /\ k = key_of soup /\ r = record_of soup.

(** A fragment is settled in a state when handling it changes nothing: it
    has no body, or its fingerprint is in [seen_messages]. *)
Definition settled (st : state) (soup : Soup) : Prop :=
  content_of soup = [] \/ key_of soup ∈ seen_messages st.

End Monitor.

(** The state of a fresh [ChatMonitor]. *)
Definition init_state : state :=
  {| seen_messages := ∅; queue := []; trace := [] |}.

(** ** The keystroke step of [curses_main] *)

Definition KEY_ENTER : Z := 343.
Definition KEY_BACKSPACE : Z := 263.

(** [input_buffer], and the messages [send_message] was called with. *)
Record ui := { input_buffer : pystr; sent : list pystr }.

(** [chr(ch)] *)
Definition chr (ch : Z) : N := Z.to_N ch.

(** [send_message(driver, message)]: the call is recorded.  What the
    driver does with the message is outside the model; a failure there is
    caught and logged inside [send_message]. *)
Definition send_message (message : pystr) (st : ui) : ui :=
  {| input_buffer := input_buffer st; sent := sent st ++ [message] |}.

(** The [try] block after [ch = input_win.getch()]; [-1] stands for no
    key. *)
Definition handle_key (ch : Z) (st : ui) : ui :=
  if negb (ch =? -1)%Z then
    if ((ch =? KEY_ENTER) || (ch =? 10) || (ch =? 13))%Z then
      if truthy (strip (input_buffer st)) then
        let st := send_message (input_buffer st) st in
        {| input_buffer := []; sent := sent st |}
      else st
    else if ((ch =? KEY_BACKSPACE) || (ch =? 127))%Z then
      {| input_buffer := removelast (input_buffer st); sent := sent st |}
    else if ((0 <=? ch) && (ch <=? 255))%Z then
      {| input_buffer := input_buffer st ++ [chr ch]; sent := sent st |}
    else st
  else st.

(** [ch in (curses.KEY_ENTER, 10, 13)] *)
Definition is_enter (ch : Z) : Prop := ch = KEY_ENTER \/ ch = 10%Z \/ ch = 13%Z.

(** [input_buffer] when [curses_main] enters its loop; nothing sent yet. *)
Definition init_ui : ui := {| input_buffer := []; sent := [] |}.

(** The keystroke steps alone, on the values [getch] returned, one a
    tick.  The other statements of a tick can raise and end the loop (see
    [run_ticks] below), so the runs of the loop are among these, cut
    short. *)
Definition type_keys (keys : list Z) (st : ui) : ui :=
  fold_left (fun st ch => handle_key ch st) keys st.

(** A code point that a keystroke can put into the buffer. *)
Definition buffer_char (c : N) : Prop :=
  (c < 256)%N /\ c <> 10%N /\ c <> 13%N /\ c <> 127%N.

(** What the keystroke step keeps true of the input line. *)
Definition clean (st : ui) : Prop :=
  Forall buffer_char (input_buffer st)
  /\ Forall (fun m => strip m <> [] /\ Forall buffer_char m) (sent st).

(** A key that the last branch of the keystroke step appends. *)
Definition plain_key (ch : Z) : Prop :=
  (0 <= ch <= 255)%Z /\ ch <> 10%Z /\ ch <> 13%Z /\ ch <> 127%Z.

(** ** The loop of [curses_main]

    A tick of [while True] updates the input window, handles one key and
    then displays the new chat messages.  The update of the input window
    and the display are outside the [try] of the keystroke step, and the
    display catches [queue.Empty] only: an exception of curses in either
    of them leaves the loop. *)



(** The loop is running, or an exception has left it. *)
Inductive loop_state :=
  | Running (st : ui)
  | Ended (st : ui).

Definition state_of (l : loop_state) : ui :=
  match l with Running st => st | Ended st => st end.

Section InputLoop.

(** Whether the update of the input window returns for this buffer:
    [input_win.clear()], [input_win.addstr(0, 0, prompt)],
    [input_win.addstr(1, 0, input_buffer)] and [input_win.refresh()].
    What curses accepts (no null character, a text that fits the window)
    is the library's, and a parameter here. *)
Variable render_ok : pystr -> bool.



End InputLoop.

(** ** [convert_color] *)

Section Lower.

(** [str.lower] maps ASCII letters as written out here; the lower-case
    form of any other code point is given by the Unicode tables and may
    depend on the text before and after it, so the table takes both. *)
Variable unicode_lower : pystr -> N -> pystr -> pystr.

Definition lower_char (before : pystr) (c : N) (after : pystr) : pystr :=
  if ((65 <=? c) && (c <=? 90))%N then [(c + 32)%N]
  else if (c <? 128)%N then [c]
  else unicode_lower before c after.

Fixpoint lower_from (before s : pystr) : pystr :=
  match s with
  | [] => []
  | c :: t => lower_char before c t ++ lower_from (before ++ [c]) t
  end.

(** [s.lower()] *)
Definition lower (s : pystr) : pystr := lower_from [] s.

Definition hex_to_color : gmap pystr pystr :=
  list_to_map
    [(py "#ff0000", py "RED");
     (py "#00ff00", py "GREEN");
     (py "#0000ff", py "BLUE");
     (py "#ffff00", py "YELLOW");
     (py "#888888", py "GRAY");
     (py "#8888", py "GRAY")].

(** [hex_to_color.get(hex_code.lower(), "")] *)
Definition convert_color (hex_code : pystr) : pystr :=
  match hex_to_color !! lower hex_code with
  | Some color => color
  | None => []
  end.

End Lower.

(** A code point of ASCII. *)
Definition ascii_char (c : N) : Prop := (c < 128)%N.

(** ** The page side: the scripts of [init_observer] and of the probe *)

(** A node added to the chat container, as the observer's callback reads
    it. *)
Record node := {
  is_element : bool;   (* node.nodeType === Node.ELEMENT_NODE *)
  matches_li : bool;   (* node.matches('li') *)
  outerHTML : pystr
}.

(** What the scripts read and write in the page: [window.newMessages]
    ([None] while undefined), whether [ul.chatroom__messages] is found,
    and how many observers watch its child list. *)
Record page := {
  newMessages : option (list pystr);
  has_container : bool;
  observers : nat
}.

(** A page just loaded. *)
Definition fresh_page (container : bool) : page :=
  {| newMessages := None; has_container := container; observers := 0 |}.

(** The script of [init_observer]: [if (!window.newMessages)] holds only
    while the variable is undefined, an array being true even when empty. *)
Definition init_observer (p : page) : page :=
  match newMessages p with
  | Some _ => p
  | None =>
      {| newMessages := Some [];
         has_container := has_container p;
         observers := if has_container p then S (observers p) else observers p |}
  end.

(** [window.newMessages.push(html)]; on an undefined variable the call
    throws inside the callback and the page is left as it is. *)
Definition push (html : pystr) (p : page) : page :=
  match newMessages p with
  | Some msgs =>
      {| newMessages := Some (msgs ++ [html]);
         has_container := has_container p;
         observers := observers p |}
  | None => p
  end.

(** The body of [mutation.addedNodes.forEach]. *)
Definition on_added_node (p : page) (n : node) : page :=
  if is_element n && matches_li n then push (outerHTML n) p else p.

(** The callback of the observer on a list of mutation records, each
    given by its added nodes. *)
Definition observer_callback (mutations : list (list node)) (p : page) : page :=
  fold_left (fun p addedNodes => fold_left on_added_node addedNodes p)
            mutations p.

(** The browser runs the callback of every observer of the container. *)
Definition deliver (mutations : list (list node)) (p : page) : page :=
  Nat.iter (observers p) (observer_callback mutations) p.

(** The script of the probe:
    [var msgs = window.newMessages; window.newMessages = []; return msgs;] *)
Definition poll (p : page) : option (list pystr) * page :=
  (newMessages p,
   {| newMessages := Some [];
      has_container := has_container p;
      observers := observers p |}).

(** What happens to the page, in order. *)
Inductive page_event :=
  | Mutation (mutations : list (list node))
  | Poll
  | InitObserver.

(** The page after the events, and what the polls returned. *)
Fixpoint run_page (evs : list page_event) (p : page)
    : list (option (list pystr)) * page :=
  match evs with
  | [] => ([], p)
  | Mutation ms :: evs' => run_page evs' (deliver ms p)
  | Poll :: evs' =>
      let '(msgs, p') := poll p in
      let '(outs, p'') := run_page evs' p' in
      (msgs :: outs, p'')
  | InitObserver :: evs' => run_page evs' (init_observer p)
  end.

(** The fragments the observer takes from an added node. *)
Definition li_html (n : node) : list pystr :=
  if is_element n && matches_li n then [outerHTML n] else [].

(** All of them, over the mutations among the events. *)
Fixpoint added_li (evs : list page_event) : list pystr :=
  match evs with
  | [] => []
  | Mutation ms :: evs' => flat_map (flat_map li_html) ms ++ added_li evs'
  | _ :: evs' => added_li evs'
  end.

(** [None], the undefined value, read as no fragments. *)
Definition fragments_of (o : option (list pystr)) : list pystr :=
  match o with Some l => l | None => [] end.

(** ** The monitor on a page *)

Section MonitorOnPage.

Variable unicode_upper : N -> pystr.
Variable fromisoformat : pystr -> option datetime.

(** What [BeautifulSoup(msg_html, 'html.parser')] and the selectors make
    of a fragment of the page. *)
Variable html_parser : pystr -> RawFragment.

(** What [execute_script] hands to the loop: the batch, or the undefined
    value, which arrives as [None] and raises at the [for]. *)
Definition probe_result (msgs : option (list pystr))
    : outcome (list RawFragment) :=
  match msgs with
  | Some l => Return (map html_parser l)
  | None => Raise (py "'NoneType' object is not iterable")
  end.

(** One call of [process_messages] on the page: the script of the probe
    runs in the page, and the loop handles what it returned. *)
Definition process_page (p : page) (st : state) : page * state :=
  (snd (poll p),
   snd (process_messages unicode_upper fromisoformat
          (probe_result (fst (poll p))) st)).

End MonitorOnPage.

(** ** Sample data *)

Definition no_table : N -> pystr := fun c => [c].

Definition digit2 (a b : N) : N := 10 * (a - 48) + (b - 48).

(** A parser for the one layout [YYYY-MM-DDTHH:MM:SS]. *)
Definition sample_fromisoformat (s : pystr) : option datetime :=
  match s with
  | [_; _; _; _; 45; _; _; 45; _; _; 84; h1; h2; 58; m1; m2; 58; s1; s2] =>
      Some {| hour := digit2 h1 h2; minute := digit2 m1 m2; second := digit2 s1 s2 |}
  | _ => None
  end.

Definition text_tag (s : pystr) : Tag := {| attrs := ∅; text_nodes := [s] |}.
Definition time_tag (title : pystr) : Tag :=
  {| attrs := {[ py "title" := title ]}; text_nodes := [] |}.

Definition entry_soup (author title body : pystr) : Soup :=
  {| username_elem := Some (text_tag author);
     time_elem := Some (time_tag title);
     content_elem := Some (text_tag body) |}.

Definition entry (author title body : pystr) : RawFragment :=
  Html (entry_soup author title body).

Definition alice_hello : Soup :=
  entry_soup (py "alice") (py "2024-01-01T10:00:00") (py "[b]hello[/b] world").
Definition bob_hello : Soup :=
  entry_soup (py "bob") (py "2024-01-01T10:00:00") (py "[b]hello[/b] world").
Definition carol_later : Soup :=
  entry_soup (py "carol") (py "2024-01-01T10:00:05") (py "[i]hi[/i]").
Definition dave_soon : Soup :=
  entry_soup (py "dave") (py " soon ") (py "hi").
Definition bold_hi : Soup :=
  entry_soup (py "alice") (py "2024-01-01T10:00:00") (py "[b]hi[/b]").
Definition plain_HI : Soup :=
  entry_soup (py "alice") (py "2024-01-01T10:00:00") (py "HI").
Definition blank_body : Soup :=
  entry_soup (py "bob") (py "2024-01-01T10:00:00") (py "   ").
Definition hyphen_body : Soup := entry_soup (py "eve") (py "a") (py "b-c").
Definition hyphen_time : Soup := entry_soup (py "mallory") (py "a-b") (py "c").


(** ** Words in a text *)

(** [p in s]: the word [p] occurs somewhere in [s]. *)
Fixpoint contains (p s : pystr) : bool :=
  match strip_prefix p s with
  | Some _ => true
  | None => match s with [] => false | _ :: t => contains p t end
  end.

(** A character other than the opening bracket. *)
Definition no_bracket (c : N) : Prop := c <> 91.

(** A character of a color attribute that is no bracket of either kind. *)
Definition attr_char (c : N) : Prop := c <> 91 /\ c <> 93.

(** ** More sample data *)



(** A parser that takes every fragment with a list item for a message of
    alice and fails on the others. *)
Definition sample_parser (html : pystr) : RawFragment :=
  if contains (py "<li") html
  then entry (py "alice") (py "2024-01-01T10:00:00") html
  else Unparsable (py "boom").

(** A table of lower-case forms that maps each code point to itself. *)
Definition no_lower_table : pystr -> N -> pystr -> pystr := fun _ c _ => [c].

(** ** Readings of the specification, to compare the code with *)

(** The greedy group, the star without the question mark: it runs to the
    last place where [close] starts. *)
Fixpoint greedy_until (close s : pystr) : option (pystr * pystr) :=
  match s with
  | [] => match strip_prefix close [] with Some r => Some ([], r) | None => None end
  | c :: t =>
      match greedy_until close t with
      | Some (g, r) => Some (c :: g, r)
      | None =>
          match strip_prefix close s with
          | Some r => Some ([], r)
          | None => None
          end
      end
  end.

(** The printable characters among the single-byte codes: the ASCII ones
    from the space to the tilde and the Latin-1 ones from 160 on.  The
    control codes 0..31 and 127..159 are not printable. *)
Definition single_byte_printable (ch : Z) : bool :=
  (((32 <=? ch) && (ch <=? 126)) || ((160 <=? ch) && (ch <=? 255)))%Z.

Local Close Scope N_scope.

(** A decidable statement about closed data, settled by evaluation. *)
Ltac by_compute := apply (bool_decide_unpack _); vm_compute; exact I.

(** * Properties *)

(** ** Stripping *)

Lemma lstrip_nil (s : pystr) : lstrip s = [] <-> forallb isspace s = true.
Proof.
  induction s as [|c t IH]; simpl; [tauto|].
  destruct (isspace c); simpl; [exact IH|].
  split; discriminate.
Qed.

Lemma forallb_rev {A} (f : A -> bool) (l : list A) :
  forallb f (rev l) = forallb f l.
Proof.
  induction l as [|x l IH]; simpl; [reflexivity|].
  rewrite forallb_app, IH. simpl. rewrite andb_true_r. apply andb_comm.
Qed.

(** A string strips to nothing exactly when it is all white space. *)
Lemma strip_nil (s : pystr) : strip s = [] <-> forallb isspace s = true.
Proof.
  unfold strip, rstrip. split.
  - intros H. apply (f_equal (@rev N)) in H. rewrite rev_involutive in H.
    simpl in H. apply lstrip_nil in H. rewrite forallb_rev in H.
    apply lstrip_nil. clear -H.
    induction s as [|c t IH]; simpl in *; [reflexivity|].
    destruct (isspace c) eqn:E; [auto|].
    simpl in H. rewrite E in H. discriminate.
  - intros H. apply lstrip_nil in H. rewrite H. reflexivity.
Qed.

Lemma concat_filter_truthy_nil (l : list pystr) :
  concat (List.filter truthy l) = [] <-> Forall (fun s => s = []) l.
Proof.
  induction l as [|s l IH]; simpl.
  - split; auto.
  - destruct s as [|c s]; simpl.
    + rewrite IH. split; [auto | intros H; inversion H; auto].
    + split; [discriminate | intros H; inversion H; discriminate].
Qed.

Lemma forallb_concat {A} (f : A -> bool) (l : list (list A)) :
  forallb f (concat l) = forallb (forallb f) l.
Proof.
  induction l as [|x l IH]; simpl; [reflexivity|].
  rewrite forallb_app, IH. reflexivity.
Qed.

(** [get_text(strip=True)] is empty exactly when the whole text of the tag
    is empty after trimming. *)
Lemma get_text_strip_nil (t : Tag) :
  get_text_strip t = [] <-> strip (concat (text_nodes t)) = [].
Proof.
  unfold get_text_strip. rewrite concat_filter_truthy_nil, strip_nil.
  rewrite forallb_concat. induction (text_nodes t) as [|s l IH]; simpl.
  - split; auto.
  - rewrite andb_true_iff, <- IH, <- strip_nil.
    split; [intros H; inversion H; auto | intros [? ?]; auto].
Qed.

Lemma get_text_strip_single (a : gmap pystr pystr) (s : pystr) :
  get_text_strip {| attrs := a; text_nodes := [s] |} = strip s.
Proof.
  unfold get_text_strip. simpl. destruct (strip s); simpl; [reflexivity|].
  rewrite app_nil_r. reflexivity.
Qed.

(** ** Matching *)

Lemma strip_prefix_Some (p s r : pystr) :
  strip_prefix p s = Some r <-> s = p ++ r.
Proof.
  revert s. induction p as [|a p IH]; intros s; simpl.
  - split; congruence.
  - destruct s as [|b s]; [split; discriminate|].
    destruct (N.eqb_spec a b) as [->|Hne].
    + rewrite IH. split; congruence.
    + split; [discriminate | congruence].
Qed.

Lemma strip_prefix_app (p r : pystr) : strip_prefix p (p ++ r) = Some r.
Proof. apply strip_prefix_Some. reflexivity. Qed.

Lemma lazy_until_sound (close s g r : pystr) :
  lazy_until close s = Some (g, r) -> s = g ++ close ++ r.
Proof.
  revert g r. induction s as [|c t IH]; intros g r; simpl.
  - destruct (strip_prefix close []) eqn:E; [|discriminate].
    intros [= <- <-]. apply strip_prefix_Some in E. exact E.
  - destruct (strip_prefix close (c :: t)) eqn:E.
    + intros [= <- <-]. apply strip_prefix_Some in E. exact E.
    + destruct (lazy_until close t) as [[g' r']|] eqn:E'; [|discriminate].
      intros [= <- <-]. rewrite (IH _ _ eq_refl). reflexivity.
Qed.

(** The group of a lazy match is the shortest one: no closing tag starts
    before the one that ends it. *)
Lemma lazy_until_nearest (close s g r : pystr) :
  lazy_until close s = Some (g, r) ->
  forall g' r', s = g' ++ close ++ r' -> length g <= length g'.
Proof.
  revert g r. induction s as [|c t IH]; intros g r; simpl.
  - destruct (strip_prefix close []); [|discriminate].
    intros [= <- <-] g' r' _. simpl. lia.
  - destruct (strip_prefix close (c :: t)) eqn:E.
    + intros [= <- <-] g' r' _. simpl. lia.
    + destruct (lazy_until close t) as [[g0 r0]|] eqn:E'; [|discriminate].
      intros [= <- <-] g' r' Hs. destruct g' as [|c' g'].
      * simpl in Hs. rewrite Hs, strip_prefix_app in E. discriminate.
      * simpl in Hs. injection Hs as -> Ht. simpl.
        specialize (IH _ _ eq_refl _ _ Ht). lia.
Qed.

(** Any text may stand between the tags, line breaks included: wherever a
    closing tag follows, the lazy group matches. *)
Lemma lazy_until_complete (close g' r' : pystr) :
  exists g r, lazy_until close (g' ++ close ++ r') = Some (g, r).
Proof.
  induction g' as [|c g' IH].
  - exists [], r'. simpl. destruct (close ++ r') eqn:E; simpl; rewrite <- E.
    + rewrite strip_prefix_app. reflexivity.
    + rewrite strip_prefix_app. reflexivity.
  - simpl. destruct (strip_prefix close (c :: g' ++ close ++ r')) as [r0|].
    + exists [], r0. reflexivity.
    + destruct IH as (g & r & ->). exists (c :: g), r. reflexivity.
Qed.

Lemma tag_re_rest (open close s : pystr) (m : Match) :
  open <> [] -> tag_re open close s = Some m -> length (rest m) < length s.
Proof.
  unfold tag_re. intros Ho.
  destruct (strip_prefix open s) as [r|] eqn:E; [|discriminate].
  destruct (lazy_until close r) as [[g r']|] eqn:E'; [|discriminate].
  intros [= <-]. simpl. apply strip_prefix_Some in E.
  apply lazy_until_sound in E'. subst. rewrite !length_app.
  destruct open; [congruence | simpl; lia].
Qed.

Lemma span_attr_app (s a r : pystr) :
  span_attr s = (a, r) -> s = a ++ r.
Proof.
  revert a r. induction s as [|c t IH]; intros a r; simpl.
  - intros [= <- <-]. reflexivity.
  - destruct (N.eqb c 93); [intros [= <- <-]; reflexivity|].
    destruct (span_attr t) as [a' r']. intros [= <- <-].
    rewrite (IH _ _ eq_refl) at 1. reflexivity.
Qed.

Lemma color_re_rest (s : pystr) (m : Match) :
  color_re s = Some m -> length (rest m) < length s.
Proof.
  unfold color_re.
  destruct (strip_prefix (py "[color=") s) as [r|] eqn:E; [|discriminate].
  destruct (span_attr r) as [a r1] eqn:Ea.
  destruct a as [|a0 a]; [discriminate|].
  destruct r1 as [|c r']; [discriminate|].
  destruct (N.eqb c 93); [|discriminate].
  destruct (lazy_until (py "[/color]") r') as [[g r'']|] eqn:E'; [|discriminate].
  intros [= <-]. simpl. apply strip_prefix_Some in E.
  apply span_attr_app in Ea. apply lazy_until_sound in E'. subst.
  rewrite !length_app. simpl. rewrite !length_app. simpl. lia.
Qed.

(** ** [re.sub] *)

Section ReSub.

Variable re : pystr -> option Match.
Variable repl : Match -> pystr.

(** A match consumes at least one character. *)
Hypothesis re_rest : forall s m, re s = Some m -> length (rest m) < length s.

(** The scan never runs out of fuel. *)
Lemma re_sub_fuel_enough (f1 f2 : nat) (s : pystr) :
  length s < f1 -> length s < f2 ->
  re_sub_fuel f1 re repl s = re_sub_fuel f2 re repl s.
Proof.
  revert f2 s. induction f1 as [|f1 IH]; intros f2 s H1 H2; [lia|].
  destruct f2 as [|f2]; [lia|]. simpl.
  destruct s as [|c t]; [reflexivity|].
  destruct (re (c :: t)) as [m|] eqn:E.
  - apply re_rest in E. simpl in *. f_equal. apply IH; lia.
  - simpl in *. f_equal. apply IH; lia.
Qed.

Lemma re_sub_nil : re_sub re repl [] = [].
Proof. reflexivity. Qed.

Lemma re_sub_match (s : pystr) (m : Match) :
  re s = Some m -> re_sub re repl s = repl m ++ re_sub re repl (rest m).
Proof.
  intros E. unfold re_sub. pose proof (re_rest _ _ E) as Hlt.
  destruct s as [|c t]; [simpl in Hlt; lia|].
  change (re_sub_fuel (S (length (c :: t))) re repl (c :: t))
    with (match re (c :: t) with
          | Some m => repl m ++ re_sub_fuel (length (c :: t)) re repl (rest m)
          | None => c :: re_sub_fuel (length (c :: t)) re repl t
          end).
  rewrite E. f_equal. apply re_sub_fuel_enough; simpl in *; lia.
Qed.

Lemma re_sub_skip (c : N) (t : pystr) :
  re (c :: t) = None -> re_sub re repl (c :: t) = c :: re_sub re repl t.
Proof.
  intros E. unfold re_sub.
  change (re_sub_fuel (S (length (c :: t))) re repl (c :: t))
    with (match re (c :: t) with
          | Some m => repl m ++ re_sub_fuel (length (c :: t)) re repl (rest m)
          | None => c :: re_sub_fuel (length (c :: t)) re repl t
          end).
  rewrite E. reflexivity.
Qed.

(** Text in which the pattern matches nowhere is returned as it is. *)
Lemma re_sub_no_match (s : pystr) :
  re_search re s = false -> re_sub re repl s = s.
Proof.
  induction s as [|c t IH]; simpl; [reflexivity|].
  destruct (re (c :: t)) eqn:E; [discriminate|].
  intros H. rewrite re_sub_skip by exact E. f_equal. auto.
Qed.

End ReSub.

(** ** The normalizer *)

Lemma bold_re_rest (s : pystr) (m : Match) :
  bold_re s = Some m -> length (rest m) < length s.
Proof. apply tag_re_rest. discriminate. Qed.

Lemma italic_re_rest (s : pystr) (m : Match) :
  italic_re s = Some m -> length (rest m) < length s.
Proof. apply tag_re_rest. discriminate. Qed.

(** A tag pattern matches whatever stands between the opening tag and a
    closing tag, and its group ends at the first closing tag. *)
Lemma tag_re_spec (open close g r : pystr) :
  exists m, tag_re open close (open ++ g ++ close ++ r) = Some m
    /\ g ++ close ++ r = group m 1 ++ close ++ rest m
    /\ (forall g' r', g ++ close ++ r = g' ++ close ++ r' ->
        length (group m 1) <= length g').
Proof.
  unfold tag_re. rewrite strip_prefix_app.
  destruct (lazy_until_complete close g r) as (g0 & r0 & E). rewrite E.
  eexists. split; [reflexivity|].
  exact (conj (lazy_until_sound _ _ _ _ E) (lazy_until_nearest _ _ _ _ E)).
Qed.

Lemma span_attr_run (a r : pystr) :
  Forall (fun c => c <> 93%N) a -> span_attr (a ++ 93%N :: r) = (a, 93%N :: r).
Proof.
  induction 1 as [|c a Hc _ IH]; simpl; [reflexivity|].
  destruct (N.eqb_spec c 93); [contradiction|]. rewrite IH. reflexivity.
Qed.

(** C3: [parse_bbcode] is the three rewrites in the order bold, italic,
    color.  Each rewrite replaces every span its pattern matches, scanning
    from the left: bold by the group upper-cased, italic by the group
    between two underscores, color by the second group (the attribute is
    dropped), and copies the characters where the pattern does not match.
    The three examples of the specification evaluate as stated, bold is
    resolved before italic, and a text in which none of the three patterns
    matches anywhere is returned unchanged. *)
Theorem parse_bbcode_three_rewrites (unicode_upper : N -> pystr) (text : pystr) :
  parse_bbcode unicode_upper text
    = sub_color (sub_italic (sub_bold unicode_upper text))
  /\ (forall s m, bold_re s = Some m ->
        sub_bold unicode_upper s
          = upper unicode_upper (group m 1) ++ sub_bold unicode_upper (rest m))
  /\ (forall c t, bold_re (c :: t) = None ->
        sub_bold unicode_upper (c :: t) = c :: sub_bold unicode_upper t)
  /\ (forall s m, italic_re s = Some m ->
        sub_italic s = (py "_" ++ group m 1 ++ py "_") ++ sub_italic (rest m))
  /\ (forall c t, italic_re (c :: t) = None ->
        sub_italic (c :: t) = c :: sub_italic t)
  /\ (forall s m, color_re s = Some m ->
        sub_color s = group m 2 ++ sub_color (rest m))
  /\ (forall c t, color_re (c :: t) = None ->
        sub_color (c :: t) = c :: sub_color t)
  /\ parse_bbcode unicode_upper (py "[b]hi[/b]") = py "HI"
  /\ parse_bbcode unicode_upper (py "[i]hi[/i]") = py "_hi_"
  /\ parse_bbcode unicode_upper (py "[color=#ff0000]hi[/color]") = py "hi"
  /\ parse_bbcode unicode_upper (py "[b][i]x[/i][/b]") = py "[I]X[/I]"
  /\ parse_bbcode unicode_upper (py "[color=red][i]x[/i][/color]") = py "_x_"
  /\ (re_search bold_re text = false ->
      re_search italic_re text = false ->
      re_search color_re text = false ->
      parse_bbcode unicode_upper text = text).
Proof.
  split; [reflexivity|].
  split; [intros s m E; exact (re_sub_match bold_re
    (fun m => upper unicode_upper (group m 1)) bold_re_rest s m E)|].
  split; [intros c t E; exact (re_sub_skip bold_re _ c t E)|].
  split; [intros s m E; exact (re_sub_match italic_re
    (fun m => py "_" ++ group m 1 ++ py "_") italic_re_rest s m E)|].
  split; [intros c t E; exact (re_sub_skip italic_re _ c t E)|].
  split; [intros s m E; exact (re_sub_match color_re
    (fun m => group m 2) color_re_rest s m E)|].
  split; [intros c t E; exact (re_sub_skip color_re _ c t E)|].
  split; [vm_compute; reflexivity|].
  split; [vm_compute; reflexivity|].
  split; [vm_compute; reflexivity|].
  split; [vm_compute; reflexivity|].
  split; [vm_compute; reflexivity|].
  intros Hb Hi Hc. unfold parse_bbcode, sub_bold, sub_italic, sub_color.
  rewrite (re_sub_no_match _ _ _ Hb), (re_sub_no_match _ _ _ Hi).
  apply re_sub_no_match. exact Hc.
Qed.

Lemma parse_bbcode_three_rewrites_witness :
  parse_bbcode no_table (py "a [b]c [/color] d") = py "a [b]c [/color] d".
Proof.
  apply (parse_bbcode_three_rewrites no_table (py "a [b]c [/color] d"));
    vm_compute; reflexivity.
Defined.

(** C8, as the code has it: each of the three patterns matches across any
    characters, line breaks included, and its group is lazy: it ends at the
    closing tag nearest to the opening tag, so no closing tag starts inside
    the group.  For color the attribute is any non-empty run without a
    closing bracket. *)
Theorem tags_match_lazily_across_lines (g r : pystr) :
  (exists m, bold_re (py "[b]" ++ g ++ py "[/b]" ++ r) = Some m
     /\ g ++ py "[/b]" ++ r = group m 1 ++ py "[/b]" ++ rest m
     /\ (forall g' r', g ++ py "[/b]" ++ r = g' ++ py "[/b]" ++ r' ->
         length (group m 1) <= length g'))
  /\ (exists m, italic_re (py "[i]" ++ g ++ py "[/i]" ++ r) = Some m
     /\ g ++ py "[/i]" ++ r = group m 1 ++ py "[/i]" ++ rest m
     /\ (forall g' r', g ++ py "[/i]" ++ r = g' ++ py "[/i]" ++ r' ->
         length (group m 1) <= length g'))
  /\ (forall a, a <> [] -> Forall (fun c => c <> 93%N) a ->
      exists m,
        color_re (py "[color=" ++ a ++ py "]" ++ g ++ py "[/color]" ++ r) = Some m
        /\ group m 1 = a
        /\ g ++ py "[/color]" ++ r = group m 2 ++ py "[/color]" ++ rest m
        /\ (forall g' r', g ++ py "[/color]" ++ r = g' ++ py "[/color]" ++ r' ->
            length (group m 2) <= length g'))
  /\ bold_re (py "[b]" ++ [97; 10; 98]%N ++ py "[/b]")
       = Some {| groups := [[97; 10; 98]%N]; rest := [] |}
  /\ bold_re (py "[b]a[/b]b[/b]")
       = Some {| groups := [py "a"]; rest := py "b[/b]" |}.
Proof.
  split; [apply tag_re_spec|].
  split; [apply tag_re_spec|].
  split; [|split; vm_compute; reflexivity].
  intros a Ha Hnb. unfold color_re. rewrite strip_prefix_app.
  change (py "]" ++ g ++ py "[/color]" ++ r)
    with (93%N :: g ++ py "[/color]" ++ r).
  rewrite (span_attr_run _ _ Hnb).
  destruct a as [|a0 a]; [congruence|]. rewrite N.eqb_refl.
  destruct (lazy_until_complete (py "[/color]") g r) as (g0 & r0 & E).
  rewrite E. eexists. split; [reflexivity|].
  exact (conj eq_refl (conj (lazy_until_sound _ _ _ _ E)
                            (lazy_until_nearest _ _ _ _ E))).
Qed.

Lemma tags_match_lazily_across_lines_witness :
  exists m,
    color_re (py "[color=" ++ py "red" ++ py "]" ++ [120; 10; 121]%N
              ++ py "[/color]" ++ py "z[/color]") = Some m
    /\ group m 1 = py "red"
    /\ group m 2 = [120; 10; 121]%N.
Proof.
  destruct (tags_match_lazily_across_lines [120; 10; 121]%N (py "z[/color]"))
    as (_ & _ & Hc & _).
  destruct (Hc (py "red")) as (m & E & H1 & H2 & H3).
  - discriminate.
  - repeat constructor; discriminate.
  - exists m. split; [exact E|]. split; [exact H1|].
    vm_compute in E. injection E as <-. reflexivity.
Defined.

(** C8, as the specification words it, fails: on two closing tags the code
    takes the group up to the first one, where a greedy group would run to
    the last. *)
Lemma greedy_capture_counterexample :
  lazy_until (py "[/b]") (py "a[/b]b[/b]") = Some (py "a", py "b[/b]")
  /\ greedy_until (py "[/b]") (py "a[/b]b[/b]") = Some (py "a[/b]b", [])
  /\ parse_bbcode no_table (py "[b]a[/b]b[/b]") = py "Ab[/b]"
  /\ parse_bbcode no_table (py "[b]a[/b]b[/b]") <> py "A[/B]B"
  /\ parse_bbcode no_table (py "[i]a[/i]b[/i]") = py "_a_b[/i]"
  /\ parse_bbcode no_table (py "[color=red]a[/color]b[/color]") = py "ab[/color]".
Proof.
  repeat split; try (vm_compute; reflexivity). vm_compute. discriminate.
Qed.

(** ** The monitor *)

Section MonitorProperties.

Variable unicode_upper : N -> pystr.
Variable fromisoformat : pystr -> option datetime.

Local Abbreviation parse_bbcode := (parse_bbcode unicode_upper).
Local Abbreviation display_time_of := (display_time_of fromisoformat).
Local Abbreviation loop_body := (loop_body unicode_upper fromisoformat).
Local Abbreviation process_messages := (process_messages unicode_upper fromisoformat).
Local Abbreviation monitor_live := (monitor_live unicode_upper fromisoformat).

Local Abbreviation key_of := (key_of fromisoformat).
Local Abbreviation record_of := (record_of unicode_upper fromisoformat).
Local Abbreviation well_paired := (well_paired unicode_upper).
Local Abbreviation Inv := (Inv unicode_upper).
Local Abbreviation sourced := (sourced unicode_upper fromisoformat).

Lemma truthy_true (s : pystr) : truthy s = true <-> s <> [].
Proof. destruct s; simpl; split; congruence. Qed.

(** One turn of the loop on a document that parses. *)
Lemma loop_body_html (soup : Soup) (st : state) :
  loop_body (Html soup) st =
    (Return tt,
     if truthy (content_of soup) then
       if decide (key_of soup ∈ seen_messages st) then st
       else accept (key_of soup) (record_of soup) st
     else st).
Proof.
  unfold loop_body, bind, BeautifulSoup, ret, get_seen. fold (key_of soup).
  destruct (truthy (content_of soup)); simpl; [|reflexivity].
  destruct (decide (key_of soup ∈ seen_messages st)); [reflexivity|].
  unfold seen_add, queue_put, accept, record_of. simpl.
  rewrite <- app_assoc. reflexivity.
Qed.

Lemma loop_body_skip (soup : Soup) (st : state) :
  content_of soup = [] -> loop_body (Html soup) st = (Return tt, st).
Proof. intros H. rewrite loop_body_html, H. reflexivity. Qed.

Lemma loop_body_accept (soup : Soup) (st : state) :
  content_of soup <> [] -> key_of soup ∉ seen_messages st ->
  loop_body (Html soup) st
    = (Return tt, accept (key_of soup) (record_of soup) st).
Proof.
  intros Hc Hk. rewrite loop_body_html.
  apply truthy_true in Hc. rewrite Hc.
  destruct (decide (key_of soup ∈ seen_messages st)); [contradiction|].
  reflexivity.
Qed.

Lemma loop_body_seen (soup : Soup) (st : state) :
  key_of soup ∈ seen_messages st -> loop_body (Html soup) st = (Return tt, st).
Proof.
  intros Hk. rewrite loop_body_html.
  destruct (truthy (content_of soup)); [|reflexivity].
  destruct (decide (key_of soup ∈ seen_messages st)); [reflexivity|].
  contradiction.
Qed.

Lemma loop_body_unparsable (e : pystr) (st : state) :
  loop_body (Unparsable e) st = (Raise e, st).
Proof. reflexivity. Qed.

Lemma for_each_cons {A} (body : A -> M unit) (x : A) (l : list A) (st : state) :
  for_each body (x :: l) st =
    match body x st with
    | (Return _, st') => for_each body l st'
    | (Raise e, st') => (Raise e, st')
    end.
Proof. reflexivity. Qed.

Lemma for_each_step {A} (body : A -> M unit) (x : A) (l : list A)
    (st st' : state) :
  body x st = (Return tt, st') ->
  for_each body (x :: l) st = for_each body l st'.
Proof. intros E. rewrite for_each_cons, E. reflexivity. Qed.

Lemma for_each_app {A} (body : A -> M unit) (l1 l2 : list A) (st : state) :
  for_each body (l1 ++ l2) st =
    match for_each body l1 st with
    | (Return _, st') => for_each body l2 st'
    | (Raise e, st') => (Raise e, st')
    end.
Proof.
  revert st. induction l1 as [|x l1 IH]; intros st; [reflexivity|].
  simpl app. rewrite !for_each_cons.
  destruct (body x st) as [[[]|e] st']; [apply IH | reflexivity].
Qed.

(** Documents that parse never make the loop raise. *)
Lemma for_each_html_returns (soups : list Soup) (st : state) :
  fst (for_each loop_body (map Html soups) st) = Return tt.
Proof.
  revert st. induction soups as [|s soups IH]; intros st; [reflexivity|].
  simpl map. rewrite for_each_cons, loop_body_html. apply IH.
Qed.

(** [process_messages] catches whatever is raised inside it. *)
Lemma process_messages_returns (p : outcome (list RawFragment)) (st : state) :
  fst (process_messages p st) = Return tt.
Proof.
  unfold process_messages, try_except.
  destruct (bind (lift p) (for_each loop_body) st) as [[[]|e] st'];
    reflexivity.
Qed.

Lemma monitor_live_cons (p : outcome (list RawFragment))
    (polls : list (outcome (list RawFragment))) (st : state) :
  monitor_live (p :: polls) st = monitor_live polls (snd (process_messages p st)).
Proof.
  unfold monitor_live. rewrite for_each_cons.
  pose proof (process_messages_returns p st) as H.
  destruct (process_messages p st) as [[[]|e] st']; [reflexivity|].
  discriminate.
Qed.

Lemma monitor_live_returns (polls : list (outcome (list RawFragment)))
    (st : state) :
  fst (monitor_live polls st) = Return tt.
Proof.
  revert st. induction polls as [|p polls IH]; intros st; [reflexivity|].
  rewrite monitor_live_cons. apply IH.
Qed.

(** *** The invariant of the monitor *)

Lemma well_paired_app (t1 t2 : list effect) :
  well_paired t1 -> well_paired t2 -> well_paired (t1 ++ t2).
Proof.
  induction 1 as [|k r c tr Hk Hc _ IH|msg tr _ IH]; intros H2; simpl.
  - exact H2.
  - eapply wp_accept; eauto.
  - apply wp_log; auto.
Qed.

Lemma accepted_app (t1 t2 : list effect) :
  well_paired t1 -> accepted (t1 ++ t2) = accepted t1 ++ accepted t2.
Proof.
  induction 1 as [|k r c tr Hk Hc _ IH|msg tr _ IH]; simpl.
  - reflexivity.
  - rewrite IH. reflexivity.
  - exact IH.
Qed.

(** In such a history a record is put right after its fingerprint is
    added. *)
Lemma well_paired_put_after_add (tr pre post : list effect) (r : ChatRecord) :
  well_paired tr -> tr = pre ++ QueuePut r :: post ->
  exists pre' c,
    pre = pre' ++ [SeenAdd (unique_key_of (display_time r) c)]
    /\ content r = parse_bbcode c.
Proof.
  intros H. revert pre.
  induction H as [|k r0 c tr Hk Hc _ IH|msg tr _ IH]; intros pre E.
  - destruct pre; discriminate.
  - destruct pre as [|x [|y pre]]; simpl in E.
    + discriminate.
    + injection E as <- <- _. exists [], c. subst k. auto.
    + injection E as <- <- E. destruct (IH _ E) as (pre' & c' & -> & Hc').
      exists (SeenAdd k :: QueuePut r0 :: pre'), c'. auto.
  - destruct pre as [|x pre]; simpl in E; [discriminate|].
    injection E as <- E. destruct (IH _ E) as (pre' & c' & -> & Hc').
    exists (LogError msg :: pre'), c'. auto.
Qed.

Lemma Inv_init : Inv init_state.
Proof.
  repeat split; simpl; try reflexivity; constructor.
Qed.

Lemma Inv_accept (k : pystr) (r : ChatRecord) (c : pystr) (st : state) :
  k = unique_key_of (display_time r) c -> content r = parse_bbcode c ->
  k ∉ seen_messages st -> Inv st -> Inv (accept k r st).
Proof.
  intros Hk Hc Hnew (Hwp & Hq & Hs & Hnd). unfold Inv, accept. simpl.
  rewrite accepted_app by exact Hwp. simpl. rewrite !map_app. simpl.
  split; [|split; [|split]].
  - apply well_paired_app; [exact Hwp|]. eapply wp_accept; eauto. constructor.
  - rewrite Hq. reflexivity.
  - rewrite list_to_set_app_L, <- Hs. simpl.
    rewrite (right_id_L ∅ (∪)). apply (comm_L (∪)).
  - apply NoDup_app. split; [exact Hnd|]. split; [|apply NoDup_singleton].
    intros x Hx ->%list_elem_of_singleton. apply Hnew. rewrite Hs.
    apply elem_of_list_to_set. exact Hx.
Qed.

Lemma Inv_logged (msg : pystr) (st : state) : Inv st -> Inv (logged msg st).
Proof.
  intros (Hwp & Hq & Hs & Hnd). unfold Inv, logged. simpl.
  rewrite accepted_app by exact Hwp. simpl. rewrite app_nil_r.
  split; [|auto]. apply well_paired_app; [exact Hwp|]. repeat constructor.
Qed.

Lemma Inv_loop_body (f : RawFragment) (st : state) :
  Inv st -> Inv (snd (loop_body f st)).
Proof.
  intros H. destruct f as [soup|e]; [|exact H].
  rewrite loop_body_html. simpl.
  destruct (truthy (content_of soup)); [|exact H].
  destruct (decide (key_of soup ∈ seen_messages st)); [exact H|].
  apply (Inv_accept _ _ (content_of soup)); auto.
Qed.

Lemma Inv_for_each (l : list RawFragment) (st : state) :
  Inv st -> Inv (snd (for_each loop_body l st)).
Proof.
  revert st. induction l as [|f l IH]; intros st H; [exact H|].
  rewrite for_each_cons. pose proof (Inv_loop_body f st H) as Hf.
  destruct (loop_body f st) as [[[]|e] st']; [apply IH|]; exact Hf.
Qed.

Lemma process_messages_raise (e : pystr) (st : state) :
  process_messages (Raise e) st
    = (Return tt, logged (Fore_RED ++ py "Error processing messages: " ++ e) st).
Proof. reflexivity. Qed.

Lemma process_messages_batch (l : list RawFragment) (st : state) :
  process_messages (Return l) st =
    match for_each loop_body l st with
    | (Return _, st') => (Return tt, st')
    | (Raise e, st') =>
        (Return tt, logged (Fore_RED ++ py "Error processing messages: " ++ e) st')
    end.
Proof.
  unfold process_messages, try_except, bind, lift.
  destruct (for_each loop_body l st) as [[[]|e] st']; reflexivity.
Qed.

Lemma Inv_process_messages (p : outcome (list RawFragment)) (st : state) :
  Inv st -> Inv (snd (process_messages p st)).
Proof.
  intros H. destruct p as [l|e].
  - rewrite process_messages_batch. pose proof (Inv_for_each l st H) as Hl.
    destruct (for_each loop_body l st) as [[[]|e] st']; simpl in *;
      [exact Hl | apply Inv_logged; exact Hl].
  - rewrite process_messages_raise. apply Inv_logged. exact H.
Qed.

Lemma Inv_monitor_live (polls : list (outcome (list RawFragment))) (st : state) :
  Inv st -> Inv (snd (monitor_live polls st)).
Proof.
  revert st. induction polls as [|p polls IH]; intros st H; [exact H|].
  rewrite monitor_live_cons. apply IH, Inv_process_messages, H.
Qed.

(** *** Deduplication *)

Lemma twice_in_one_batch (soup soup' : Soup) (st : state) :
  content_of soup <> [] -> key_of soup ∉ seen_messages st ->
  key_of soup' = key_of soup ->
  process_messages (Return [Html soup; Html soup']) st
    = (Return tt, accept (key_of soup) (record_of soup) st).
Proof.
  intros Hc Hk Hsame. rewrite process_messages_batch.
  rewrite (for_each_step _ _ _ _ _ (loop_body_accept soup st Hc Hk)).
  rewrite (for_each_step _ _ _ _ (accept (key_of soup) (record_of soup) st));
    [reflexivity|].
  apply loop_body_seen. rewrite Hsame. simpl.
  apply elem_of_union_l, elem_of_singleton. reflexivity.
Qed.

Lemma accepted_snoc (tr : list effect) (k : pystr) (r : ChatRecord) :
  well_paired tr ->
  accepted (tr ++ [SeenAdd k; QueuePut r]) = accepted tr ++ [(k, r)].
Proof. intros H. rewrite (accepted_app _ _ H). reflexivity. Qed.

Lemma sourced_init (P : Soup -> Prop) : sourced P init_state.
Proof. intros k r H. simpl in H. apply elem_of_nil in H. contradiction. Qed.

Lemma sourced_weaken (P Q : Soup -> Prop) (st : state) :
  (forall soup, P soup -> Q soup) -> sourced P st -> sourced Q st.
Proof.
  intros HPQ H k r Hkr. destruct (H k r Hkr) as (soup & HP & Hrest).
  exists soup. split; [apply HPQ; exact HP | exact Hrest].
Qed.

Lemma sourced_loop_body (P : Soup -> Prop) (f : RawFragment) (st : state) :
  (forall soup, f = Html soup -> P soup) ->
  Inv st -> sourced P st -> sourced P (snd (loop_body f st)).
Proof.
  intros HP (Hwp & _) H. destruct f as [soup|e]; [|exact H].
  rewrite loop_body_html. simpl.
  destruct (truthy (content_of soup)) eqn:Ec; [|exact H].
  destruct (decide (key_of soup ∈ seen_messages st)); [exact H|].
  intros k r Hkr. simpl in Hkr. rewrite (accepted_snoc _ _ _ Hwp) in Hkr.
  apply elem_of_app in Hkr as [Hkr|Hkr]; [exact (H k r Hkr)|].
  apply list_elem_of_singleton in Hkr. injection Hkr as -> ->.
  exists soup. split; [apply HP; reflexivity|].
  split; [apply truthy_true; exact Ec | auto].
Qed.

Lemma sourced_for_each (P : Soup -> Prop) (l : list RawFragment) (st : state) :
  (forall soup, Html soup ∈ l -> P soup) ->
  Inv st -> sourced P st -> sourced P (snd (for_each loop_body l st)).
Proof.
  revert st. induction l as [|f l IH]; intros st HP HI H; [exact H|].
  rewrite for_each_cons.
  assert (Hf : sourced P (snd (loop_body f st))).
  { apply sourced_loop_body; [|exact HI|exact H].
    intros soup ->. apply HP, list_elem_of_here. }
  pose proof (Inv_loop_body f st HI) as HI'.
  destruct (loop_body f st) as [[[]|e] st']; simpl in *; [|exact Hf].
  apply IH; [|exact HI'|exact Hf].
  intros soup Hin. apply HP, list_elem_of_further, Hin.
Qed.

Lemma sourced_logged (P : Soup -> Prop) (msg : pystr) (st : state) :
  Inv st -> sourced P st -> sourced P (logged msg st).
Proof.
  intros (Hwp & _) H k r Hkr. simpl in Hkr.
  rewrite (accepted_app _ _ Hwp) in Hkr. simpl in Hkr.
  rewrite app_nil_r in Hkr. exact (H k r Hkr).
Qed.

Lemma sourced_process_messages (P : Soup -> Prop)
    (p : outcome (list RawFragment)) (st : state) :
  (forall l soup, p = Return l -> Html soup ∈ l -> P soup) ->
  Inv st -> sourced P st -> sourced P (snd (process_messages p st)).
Proof.
  intros HP HI H. destruct p as [l|e].
  - rewrite process_messages_batch.
    pose proof (sourced_for_each P l st (fun soup => HP l soup eq_refl) HI H)
      as Hl.
    pose proof (Inv_for_each l st HI) as HI'.
    destruct (for_each loop_body l st) as [[[]|e] st']; simpl in *;
      [exact Hl | apply sourced_logged; assumption].
  - rewrite process_messages_raise. apply sourced_logged; assumption.
Qed.

Lemma sourced_monitor_live (polls : list (outcome (list RawFragment)))
    (P : Soup -> Prop) (st : state) :
  (forall soup, polled polls soup -> P soup) ->
  Inv st -> sourced P st -> sourced P (snd (monitor_live polls st)).
Proof.
  revert st. induction polls as [|p polls IH]; intros st HP HI H; [exact H|].
  rewrite monitor_live_cons. apply IH.
  - intros soup (l & Hl & Hin). apply HP. exists l.
    split; [apply list_elem_of_further; exact Hl | exact Hin].
  - apply Inv_process_messages, HI.
  - apply sourced_process_messages; [|exact HI|exact H].
    intros l soup -> Hin. apply HP. exists l.
    split; [apply list_elem_of_here | exact Hin].
Qed.

(** C1, as the code has it: a monitor started afresh puts at most one
    record per key on the queue, whatever the probe returns over its
    iterations, the key being the one the loop body builds for a fragment
    from its display time and its raw body, not a value derived from the
    record.  The queue holds the records of the accepted messages; each
    accepted message is the key and the record of a polled fragment with a
    body; the keys are pairwise distinct and make up [seen_messages]; each
    record is put right after its key was added to [seen_messages]; a
    fragment with a body that is fed twice, in one batch or in two
    successive polls, puts exactly one record; and so does a second
    fragment with the same display time and raw body, whatever its
    author. *)
Theorem dedup_one_record_per_key
    (polls : list (outcome (list RawFragment))) (soup soup' : Soup)
    (st : state) :
  let st' := snd (monitor_live polls init_state) in
  (queue st' = map snd (accepted (trace st'))
   /\ NoDup (map fst (accepted (trace st')))
   /\ seen_messages st' = list_to_set (map fst (accepted (trace st'))))
  /\ (forall k r, (k, r) ∈ accepted (trace st') ->
      exists s, polled polls s /\ content_of s <> []
        /\ k = unique_key_of (display_time_of s) (content_of s)
        /\ r = {| display_time := display_time_of s;
                  username := username_of s;
                  content := parse_bbcode (content_of s) |})
  /\ (forall pre r post, trace st' = pre ++ QueuePut r :: post ->
      exists pre' c,
        pre = pre' ++ [SeenAdd (unique_key_of (display_time r) c)]
        /\ content r = parse_bbcode c)
  /\ (content_of soup <> [] -> key_of soup ∉ seen_messages st ->
      queue (snd (process_messages (Return [Html soup; Html soup]) st))
        = queue st ++ [record_of soup]
      /\ queue (snd (monitor_live [Return [Html soup]; Return [Html soup]] st))
        = queue st ++ [record_of soup])
  /\ (content_of soup <> [] -> key_of soup ∉ seen_messages st ->
      display_time_of soup' = display_time_of soup ->
      content_of soup' = content_of soup ->
      queue (snd (process_messages (Return [Html soup; Html soup']) st))
        = queue st ++ [record_of soup]).
Proof.
  intros st'. destruct (Inv_monitor_live polls init_state Inv_init)
    as (Hwp & Hq & Hs & Hnd). fold st' in Hwp, Hq, Hs, Hnd.
  split; [auto|]. split.
  { exact (sourced_monitor_live polls (polled polls) init_state
             (fun _ H => H) Inv_init (sourced_init _)). }
  split.
  { intros pre r post E. exact (well_paired_put_after_add _ _ _ _ Hwp E). }
  split.
  - intros Hc Hk. split.
    + rewrite twice_in_one_batch by auto. reflexivity.
    + rewrite monitor_live_cons, process_messages_batch.
      rewrite (for_each_step _ _ _ _ _ (loop_body_accept soup st Hc Hk)).
      simpl for_each. simpl snd.
      rewrite monitor_live_cons, process_messages_batch.
      rewrite (for_each_step _ _ _ _ (accept (key_of soup) (record_of soup) st));
        [reflexivity|].
      apply loop_body_seen. simpl.
      apply elem_of_union_l, elem_of_singleton. reflexivity.
  - intros Hc Hk Ht Hb. rewrite twice_in_one_batch; auto.
    unfold key_of. rewrite Ht, Hb. reflexivity.
Qed.

(** *** Extraction *)

(** C2, as the code has it: a fragment whose body element is absent, or
    whose body text is empty after trimming, yields no record; otherwise a
    fragment not seen before yields the record of its display time, author
    and normalized body.  The display time is the time of the parsed
    instant as two-digit hours, minutes and seconds when the title
    attribute, trimmed, parses; the title attribute with surrounding white
    space trimmed when it does not parse; and [Unknown time] when the time
    element or its title attribute is absent.  The author is the text of
    the author element with each text node trimmed, and empty when the
    element is absent. *)
Theorem extractor_fields (soup : Soup) (st : state) :
  (content_of soup = [] <->
     match content_elem soup with
     | None => True
     | Some e => strip (concat (text_nodes e)) = []
     end)
  /\ (content_of soup = [] -> loop_body (Html soup) st = (Return tt, st))
  /\ (content_of soup <> [] -> key_of soup ∉ seen_messages st ->
      exists st', loop_body (Html soup) st = (Return tt, st')
        /\ queue st' = queue st ++
             [{| display_time := display_time_of soup;
                 username := username_of soup;
                 content := parse_bbcode (content_of soup) |}])
  /\ (forall t title dt,
        time_elem soup = Some t -> attrs t !! py "title" = Some title ->
        fromisoformat (strip title) = Some dt ->
        display_time_of soup
          = two_digits (hour dt) ++ py ":" ++ two_digits (minute dt)
            ++ py ":" ++ two_digits (second dt))
  /\ (forall t title,
        time_elem soup = Some t -> attrs t !! py "title" = Some title ->
        fromisoformat (strip title) = None ->
        display_time_of soup = strip title)
  /\ (time_elem soup = None -> display_time_of soup = py "Unknown time")
  /\ (forall t, time_elem soup = Some t -> attrs t !! py "title" = None ->
        display_time_of soup = py "Unknown time")
  /\ (username_elem soup = None -> username_of soup = [])
  /\ (forall t, username_elem soup = Some t ->
        username_of soup = concat (List.filter truthy (map strip (text_nodes t))))
  /\ (forall a s, username_elem soup = Some {| attrs := a; text_nodes := [s] |} ->
        username_of soup = strip s).
Proof.
  split.
  { unfold content_of. destruct (content_elem soup) as [e|]; [|tauto].
    apply get_text_strip_nil. }
  split; [apply loop_body_skip|].
  split.
  { intros Hc Hk. eexists. split; [apply loop_body_accept; assumption|].
    reflexivity. }
  unfold display_time_of, username_of.
  split; [intros t title dt -> -> ->; reflexivity|].
  split; [intros t title -> -> ->; reflexivity|].
  split; [intros ->; reflexivity|].
  split; [intros t -> ->; reflexivity|].
  split; [intros ->; reflexivity|].
  split; [intros t ->; reflexivity|].
  intros a s ->. apply get_text_strip_single.
Qed.

(** *** The fingerprint *)

Lemma unique_key_of_inj (t c1 c2 : pystr) :
  unique_key_of t c1 = unique_key_of t c2 -> c1 = c2.
Proof.
  unfold unique_key_of. intros H. apply app_inv_head in H.
  apply app_inv_head in H. exact H.
Qed.

(** C5, as the code has it: the fingerprint of an accepted fragment is
    made of its display time and its raw body, trimmed and not yet
    normalized; the body is normalized after the fingerprint was added to
    [seen_messages], for the record that is put on the queue.  Two
    fragments with equal display time receive equal fingerprints exactly
    when their raw bodies are equal. *)
Theorem fingerprint_from_raw_body (soup soup' : Soup) (st : state) :
  (content_of soup <> [] ->
   unique_key_of (display_time_of soup) (content_of soup) ∉ seen_messages st ->
   loop_body (Html soup) st =
     (Return tt,
      {| seen_messages :=
           {[ unique_key_of (display_time_of soup) (content_of soup) ]}
           ∪ seen_messages st;
         queue := queue st ++
           [{| display_time := display_time_of soup;
               username := username_of soup;
               content := parse_bbcode (content_of soup) |}];
         trace := trace st ++
           [SeenAdd (unique_key_of (display_time_of soup) (content_of soup));
            QueuePut {| display_time := display_time_of soup;
                        username := username_of soup;
                        content := parse_bbcode (content_of soup) |}] |}))
  /\ (display_time_of soup = display_time_of soup' ->
      (key_of soup = key_of soup' <-> content_of soup = content_of soup')).
Proof.
  split.
  - intros Hc Hk. apply loop_body_accept; assumption.
  - intros Ht. unfold key_of. rewrite <- Ht. split.
    + apply unique_key_of_inj.
    + intros ->. reflexivity.
Qed.

(** *** Order *)

Lemma for_each_accept_all (soups : list Soup) (st : state) :
  Forall (fun s => content_of s <> []) soups ->
  NoDup (map key_of soups) ->
  Forall (fun s => key_of s ∉ seen_messages st) soups ->
  exists st',
    for_each loop_body (map Html soups) st = (Return tt, st')
    /\ queue st' = queue st ++ map record_of soups.
Proof.
  revert st. induction soups as [|s soups IH]; intros st Hc Hnd Hnew.
  - exists st. simpl. rewrite app_nil_r. auto.
  - inversion Hc as [|? ? Hc1 Hc2]; subst.
    inversion Hnew as [|? ? Hn1 Hn2]; subst.
    simpl in Hnd. apply NoDup_cons in Hnd as [Hfresh Hnd].
    simpl map.
    rewrite (for_each_step _ _ _ _ _ (loop_body_accept s st Hc1 Hn1)).
    destruct (IH (accept (key_of s) (record_of s) st) Hc2 Hnd) as (st' & E & Hq).
    + apply Forall_forall. intros x Hx. simpl.
      rewrite elem_of_union, elem_of_singleton. intros [Heq|Hin].
      * apply Hfresh. rewrite <- Heq. apply list_elem_of_fmap_2. exact Hx.
      * rewrite Forall_forall in Hn2. exact (Hn2 x Hx Hin).
    + exists st'. split; [exact E|]. rewrite Hq. simpl.
      rewrite <- app_assoc. reflexivity.
Qed.

(** C6: when every fragment of a batch parses, has a body and carries a
    fingerprint that is neither in [seen_messages] nor shared with another
    fragment of the batch, [process_messages] returns with the records of
    the fragments appended to the queue in the order of the batch. *)
Theorem batch_order_preserved (soups : list Soup) (st : state) :
  Forall (fun s => content_of s <> []) soups ->
  NoDup (map key_of soups) ->
  Forall (fun s => key_of s ∉ seen_messages st) soups ->
  exists st',
    process_messages (Return (map Html soups)) st = (Return tt, st')
    /\ queue st' = queue st ++ map record_of soups.
Proof.
  intros Hc Hnd Hnew.
  destruct (for_each_accept_all soups st Hc Hnd Hnew) as (st' & E & Hq).
  exists st'. rewrite process_messages_batch, E. auto.
Qed.

(** *** Exceptions *)

(** C7, as the code has it: an exception raised on a fragment is caught by
    [process_messages] and logged, not propagated; the fragments of the
    batch before it have been handled, and the fragment and all that follow
    it in the batch are dropped; an exception of the probe itself is logged
    likewise; and [monitor_live] goes on with the next poll, never
    raising. *)
Theorem exception_ends_the_batch (pre : list Soup) (e : pystr)
    (post : list RawFragment) (polls : list (outcome (list RawFragment)))
    (st : state) :
  process_messages (Return (map Html pre ++ Unparsable e :: post)) st
    = (Return tt,
       logged (Fore_RED ++ py "Error processing messages: " ++ e)
              (snd (for_each loop_body (map Html pre) st)))
  /\ queue (snd (process_messages
                   (Return (map Html pre ++ Unparsable e :: post)) st))
     = queue (snd (process_messages (Return (map Html pre)) st))
  /\ process_messages (Raise e) st
     = (Return tt, logged (Fore_RED ++ py "Error processing messages: " ++ e) st)
  /\ monitor_live (Return (map Html pre ++ Unparsable e :: post) :: polls) st
     = monitor_live polls
         (logged (Fore_RED ++ py "Error processing messages: " ++ e)
                 (snd (for_each loop_body (map Html pre) st)))
  /\ fst (monitor_live polls st) = Return tt.
Proof.
  assert (E : process_messages
                (Return (map Html pre ++ Unparsable e :: post)) st
              = (Return tt,
                 logged (Fore_RED ++ py "Error processing messages: " ++ e)
                        (snd (for_each loop_body (map Html pre) st)))).
  { rewrite process_messages_batch, for_each_app.
    pose proof (for_each_html_returns pre st) as Hr.
    destruct (for_each loop_body (map Html pre) st) as [[[]|e'] st1];
      [|discriminate].
    rewrite for_each_cons, loop_body_unparsable. reflexivity. }
  split; [exact E|]. split.
  { rewrite E, process_messages_batch.
    pose proof (for_each_html_returns pre st) as Hr.
    destruct (for_each loop_body (map Html pre) st) as [[[]|e'] st1];
      [reflexivity | discriminate]. }
  split; [apply process_messages_raise|].
  split; [rewrite monitor_live_cons, E; reflexivity|].
  apply monitor_live_returns.
Qed.

End MonitorProperties.

(** ** The monitor on sample fragments *)

Lemma dedup_one_record_per_key_witness :
  queue (snd (process_messages no_table sample_fromisoformat
                (Return [Html alice_hello; Html bob_hello]) init_state))
  = queue init_state ++ [record_of no_table sample_fromisoformat alice_hello].
Proof.
  destruct (dedup_one_record_per_key no_table sample_fromisoformat
              [] alice_hello bob_hello init_state) as (_ & _ & _ & _ & H).
  apply H.
  - vm_compute. discriminate.
  - by_compute.
  - vm_compute. reflexivity.
  - vm_compute. reflexivity.
Defined.

(** C1, as the specification words it, fails: the fingerprint of the
    specification is derived from the display time and the body of the
    record, and two records that agree in both, and so in every value
    derived from them, reach the queue when the raw bodies of their
    fragments differ.  And a fragment without a body, fed twice, puts no
    record at all. *)
Lemma same_fingerprint_twice_counterexample :
  (exists r1 r2,
     queue (snd (process_messages no_table sample_fromisoformat
                   (Return [Html bold_hi; Html plain_HI]) init_state))
       = [r1; r2]
     /\ display_time r1 = display_time r2
     /\ content r1 = content r2
     /\ forall (F : Type) (fingerprint : pystr -> pystr -> F),
          fingerprint (display_time r1) (content r1)
            = fingerprint (display_time r2) (content r2))
  /\ queue (snd (process_messages no_table sample_fromisoformat
                   (Return [Html blank_body; Html blank_body]) init_state))
     = [].
Proof.
  split; [|vm_compute; reflexivity].
  exists {| display_time := py "10:00:00"; username := py "alice";
            content := py "HI" |},
         {| display_time := py "10:00:00"; username := py "alice";
            content := py "HI" |}.
  split; [vm_compute; reflexivity|]. repeat split.
Qed.

Lemma extractor_fields_witness :
  display_time_of sample_fromisoformat alice_hello = py "10:00:00"
  /\ exists st',
       loop_body no_table sample_fromisoformat (Html alice_hello) init_state
         = (Return tt, st')
       /\ queue st' = [{| display_time := py "10:00:00";
                          username := py "alice";
                          content := py "HELLO world" |}].
Proof.
  destruct (extractor_fields no_table sample_fromisoformat alice_hello init_state)
    as (_ & _ & H & Ht & _).
  split.
  - apply (Ht (time_tag (py "2024-01-01T10:00:00")) (py "2024-01-01T10:00:00")
              {| hour := 10; minute := 0; second := 0 |});
      vm_compute; reflexivity.
  - destruct H as (st' & E & Hq).
    + vm_compute. discriminate.
    + by_compute.
    + exists st'. split; [exact E|]. rewrite Hq. vm_compute. reflexivity.
Defined.

(** C2, as the specification words it, fails: a title attribute that does
    not parse is shown trimmed, not verbatim. *)
Lemma display_time_verbatim_counterexample :
  sample_fromisoformat (py " soon ") = None
  /\ sample_fromisoformat (strip (py " soon ")) = None
  /\ display_time_of sample_fromisoformat dave_soon = py "soon"
  /\ display_time_of sample_fromisoformat dave_soon <> py " soon ".
Proof.
  repeat split; try (vm_compute; reflexivity). vm_compute. discriminate.
Qed.

Lemma fingerprint_from_raw_body_witness :
  key_of sample_fromisoformat alice_hello = key_of sample_fromisoformat bob_hello.
Proof.
  apply (fingerprint_from_raw_body no_table sample_fromisoformat
           alice_hello bob_hello init_state); vm_compute; reflexivity.
Defined.

(** C5, as the specification words it, fails: two fragments with the same
    display time whose bodies normalize to the same text have different
    fingerprints, and both reach the queue. *)
Lemma fingerprint_normalized_counterexample :
  display_time_of sample_fromisoformat bold_hi
    = display_time_of sample_fromisoformat plain_HI
  /\ parse_bbcode no_table (content_of bold_hi)
     = parse_bbcode no_table (content_of plain_HI)
  /\ key_of sample_fromisoformat bold_hi = py "10:00:00-[b]hi[/b]"
  /\ key_of sample_fromisoformat plain_HI = py "10:00:00-HI"
  /\ queue (snd (process_messages no_table sample_fromisoformat
                   (Return [Html bold_hi; Html plain_HI]) init_state))
     = [{| display_time := py "10:00:00"; username := py "alice";
           content := py "HI" |};
        {| display_time := py "10:00:00"; username := py "alice";
           content := py "HI" |}].
Proof. repeat split; vm_compute; reflexivity. Qed.

Lemma batch_order_preserved_witness :
  exists st',
    process_messages no_table sample_fromisoformat
      (Return (map Html [alice_hello; carol_later; dave_soon])) init_state
      = (Return tt, st')
    /\ queue st' = queue init_state ++
         map (record_of no_table sample_fromisoformat)
             [alice_hello; carol_later; dave_soon].
Proof.
  apply (batch_order_preserved no_table sample_fromisoformat
           [alice_hello; carol_later; dave_soon] init_state); by_compute.
Defined.

(** C7, as the specification words it, fails: after a fragment that does
    not parse, the rest of the batch is not put on the queue. *)
Lemma rest_of_batch_dropped_counterexample :
  queue (snd (process_messages no_table sample_fromisoformat
                (Return [Html alice_hello; Unparsable (py "boom");
                         Html carol_later]) init_state))
    = [record_of no_table sample_fromisoformat alice_hello]
  /\ queue (snd (process_messages no_table sample_fromisoformat
                   (Return [Html alice_hello; Html carol_later]) init_state))
    = [record_of no_table sample_fromisoformat alice_hello;
       record_of no_table sample_fromisoformat carol_later]
  /\ seen_messages (snd (process_messages no_table sample_fromisoformat
                (Return [Html alice_hello; Unparsable (py "boom");
                         Html carol_later]) init_state))
    = {[ key_of sample_fromisoformat alice_hello ]}.
Proof. repeat split; vm_compute; reflexivity. Qed.

(** ** The keystroke step *)

Lemma strip_truthy (s : pystr) : truthy (strip s) = true <-> strip s <> [].
Proof. destruct (strip s); simpl; split; congruence. Qed.

Lemma enter_key_tests (ch : Z) :
  is_enter ch ->
  negb (ch =? -1)%Z = true
  /\ ((ch =? KEY_ENTER) || (ch =? 10) || (ch =? 13))%Z = true.
Proof.
  unfold is_enter, KEY_ENTER.
  intros [->| [->| ->]]; split; reflexivity.
Qed.

Lemma enter_sends_buffer_blank (ch : Z) (st : ui) :
  is_enter ch -> strip (input_buffer st) = [] -> handle_key ch st = st.
Proof.
  intros Hch H. unfold handle_key.
  destruct (enter_key_tests ch Hch) as [-> ->]. rewrite H. reflexivity.
Qed.

(** C4, as the code has it: on Enter, a buffer that is not empty after
    trimming is handed to [send_message] once, as it was typed and not
    trimmed, and the buffer is then emptied; a buffer that is empty or all
    white space is not sent. *)
Theorem enter_sends_buffer (ch : Z) (st : ui) :
  is_enter ch ->
  (strip (input_buffer st) <> [] ->
   handle_key ch st
     = {| input_buffer := []; sent := sent st ++ [input_buffer st] |})
  /\ (strip (input_buffer st) = [] ->
      handle_key ch st = st /\ sent (handle_key ch st) = sent st).
Proof.
  intros Hch. split.
  - intros H. unfold handle_key.
    destruct (enter_key_tests ch Hch) as [-> ->].
    apply strip_truthy in H. rewrite H. reflexivity.
  - intros H. rewrite (enter_sends_buffer_blank ch st Hch H). auto.
Qed.

Lemma enter_sends_buffer_witness :
  handle_key 13 {| input_buffer := py "hello"; sent := [] |}
    = {| input_buffer := []; sent := [] ++ [py "hello"] |}.
Proof.
  apply (enter_sends_buffer 13 {| input_buffer := py "hello"; sent := [] |}).
  - right. right. reflexivity.
  - vm_compute. discriminate.
Defined.

(** C4, as the specification words it, fails: the message sent is the
    buffer with its surrounding white space, not the trimmed content. *)
Lemma enter_sends_untrimmed_counterexample :
  handle_key 10 {| input_buffer := py " hi "; sent := [] |}
    = {| input_buffer := []; sent := [py " hi "] |}
  /\ strip (py " hi ") = py "hi"
  /\ py " hi " <> py "hi".
Proof.
  repeat split; try (vm_compute; reflexivity). vm_compute. discriminate.
Qed.

(** C9, as the code has it: a key that is neither Enter nor Backspace is
    appended to the buffer exactly when its code lies in the single-byte
    range from 0 to 255, printable or not; any other key leaves the buffer
    unchanged. *)
Theorem other_key_appended (ch : Z) (st : ui) :
  ~ is_enter ch -> ch <> KEY_BACKSPACE -> ch <> 127%Z ->
  ((0 <= ch <= 255)%Z ->
   handle_key ch st
     = {| input_buffer := input_buffer st ++ [chr ch]; sent := sent st |})
  /\ ((ch < 0 \/ 255 < ch)%Z -> handle_key ch st = st).
Proof.
  intros He Hb1 Hb2. unfold handle_key.
  unfold is_enter, KEY_ENTER, KEY_BACKSPACE in *.
  assert (E1 : ((ch =? 343) || (ch =? 10) || (ch =? 13) = false)%Z).
  { repeat (apply orb_false_intro); apply Z.eqb_neq; intros ->; tauto. }
  assert (E2 : ((ch =? 263) || (ch =? 127) = false)%Z).
  { apply orb_false_intro; apply Z.eqb_neq; assumption. }
  rewrite E1, E2. split.
  - intros [H0 H255].
    destruct (Z.eqb_spec ch (-1)) as [->|_]; [lia|]. simpl.
    apply Z.leb_le in H0, H255. rewrite H0, H255. reflexivity.
  - intros H. destruct (negb (ch =? -1)%Z); [|reflexivity].
    destruct (Z.leb_spec 0 ch), (Z.leb_spec ch 255); simpl; try reflexivity.
    lia.
Qed.

Lemma other_key_appended_witness :
  handle_key 97 {| input_buffer := py "h"; sent := [] |}
    = {| input_buffer := py "h" ++ [chr 97]; sent := [] |}.
Proof.
  apply (other_key_appended 97 {| input_buffer := py "h"; sent := [] |}).
  - unfold is_enter, KEY_ENTER. lia.
  - unfold KEY_BACKSPACE. lia.
  - lia.
  - lia.
Defined.

(** C9, as the specification words it, fails: the Escape key, a control
    code and not a printable character, is appended to the buffer, and so
    are the tabulator and the null code. *)
Lemma control_key_appended_counterexample :
  single_byte_printable 27 = false
  /\ handle_key 27 {| input_buffer := py "a"; sent := [] |}
     = {| input_buffer := py "a" ++ [27%N]; sent := [] |}
  /\ handle_key 9 {| input_buffer := py "a"; sent := [] |}
     = {| input_buffer := py "a" ++ [9%N]; sent := [] |}
  /\ handle_key 0 {| input_buffer := py "a"; sent := [] |}
     = {| input_buffer := py "a" ++ [0%N]; sent := [] |}.
Proof. repeat split; vm_compute; reflexivity. Qed.

(** C10: on Enter, a buffer that is not empty but all white space is left
    as it is, and nothing is sent; it is still there after any number of
    further such keystrokes, and after a tick without a key. *)
Theorem enter_on_blank_buffer (ch : Z) (st : ui) (n : nat) :
  is_enter ch -> input_buffer st <> [] -> strip (input_buffer st) = [] ->
  handle_key ch st = st
  /\ input_buffer (handle_key ch st) = input_buffer st
  /\ sent (handle_key ch st) = sent st
  /\ Nat.iter n (handle_key ch) st = st
  /\ handle_key (-1) st = st.
Proof.
  intros Hch _ Hblank.
  pose proof (enter_sends_buffer_blank ch st Hch Hblank) as E.
  rewrite E. repeat split; try reflexivity.
  induction n as [|n IH]; simpl; [reflexivity|]. rewrite IH. exact E.
Qed.

Lemma enter_on_blank_buffer_witness :
  handle_key 10 {| input_buffer := py "   "; sent := [] |}
    = {| input_buffer := py "   "; sent := [] |}.
Proof.
  apply (enter_on_blank_buffer 10 {| input_buffer := py "   "; sent := [] |} 0).
  - right. left. reflexivity.
  - vm_compute. discriminate.
  - vm_compute. reflexivity.
Defined.

(** * Further properties of the code *)

(** ** The monitor over time *)

Section MonitorOverTime.

Variable unicode_upper : N -> pystr.
Variable fromisoformat : pystr -> option datetime.

Local Abbreviation parse_bbcode := (parse_bbcode unicode_upper).
Local Abbreviation display_time_of := (display_time_of fromisoformat).
Local Abbreviation loop_body := (loop_body unicode_upper fromisoformat).
Local Abbreviation process_messages := (process_messages unicode_upper fromisoformat).
Local Abbreviation monitor_live := (monitor_live unicode_upper fromisoformat).
Local Abbreviation key_of := (key_of fromisoformat).
Local Abbreviation record_of := (record_of unicode_upper fromisoformat).
Local Abbreviation Inv := (Inv unicode_upper).

Lemma grows_refl (st : state) : grows st st.
Proof. repeat split; reflexivity. Qed.

Lemma grows_trans (st1 st2 st3 : state) :
  grows st1 st2 -> grows st2 st3 -> grows st1 st3.
Proof.
  intros (Hs & Hq & Ht) (Hs' & Hq' & Ht'). repeat split.
  - etrans; eassumption.
  - etrans; eassumption.
  - etrans; eassumption.
Qed.

Lemma grows_accept (k : pystr) (r : ChatRecord) (st : state) :
  grows st (accept k r st).
Proof.
  repeat split; simpl.
  - apply union_subseteq_r.
  - apply prefix_app_r. reflexivity.
  - apply prefix_app_r. reflexivity.
Qed.

Lemma grows_logged (msg : pystr) (st : state) : grows st (logged msg st).
Proof.
  repeat split; simpl; [reflexivity.. |]. apply prefix_app_r. reflexivity.
Qed.

Lemma grows_loop_body (f : RawFragment) (st : state) :
  grows st (snd (loop_body f st)).
Proof.
  destruct f as [soup|e]; [|apply grows_refl].
  rewrite loop_body_html. simpl.
  destruct (truthy (content_of soup)); [|apply grows_refl].
  destruct (decide (key_of soup ∈ seen_messages st)); [apply grows_refl|].
  apply grows_accept.
Qed.

Lemma grows_for_each (l : list RawFragment) (st : state) :
  grows st (snd (for_each loop_body l st)).
Proof.
  revert st. induction l as [|f l IH]; intros st; [apply grows_refl|].
  rewrite for_each_cons. pose proof (grows_loop_body f st) as Hf.
  destruct (loop_body f st) as [[[]|e] st']; simpl in *; [|exact Hf].
  eapply grows_trans; [exact Hf | apply IH].
Qed.

Lemma grows_process_messages (p : outcome (list RawFragment)) (st : state) :
  grows st (snd (process_messages p st)).
Proof.
  destruct p as [l|e].
  - rewrite process_messages_batch. pose proof (grows_for_each l st) as Hl.
    destruct (for_each loop_body l st) as [[[]|e] st']; simpl in *;
      [exact Hl|].
    eapply grows_trans; [exact Hl | apply grows_logged].
  - rewrite process_messages_raise. apply grows_logged.
Qed.

Lemma monitor_only_grows_aux (polls : list (outcome (list RawFragment)))
    (st : state) :
  grows st (snd (monitor_live polls st)).
Proof.
  revert st. induction polls as [|p polls IH]; intros st; [apply grows_refl|].
  rewrite monitor_live_cons.
  eapply grows_trans; [apply grows_process_messages | apply IH].
Qed.

(** X1: whatever the probe returns or raises over any number of polls,
    from any state, the monitor only adds: [seen_messages] keeps every
    fingerprint it had, and the queue and the history keep what they held
    as a prefix.  Nothing is ever taken back. *)
Theorem monitor_only_grows (polls : list (outcome (list RawFragment)))
    (st : state) :
  seen_messages st ⊆ seen_messages (snd (monitor_live polls st))
  /\ queue st `prefix_of` queue (snd (monitor_live polls st))
  /\ trace st `prefix_of` trace (snd (monitor_live polls st)).
Proof.
  exact (monitor_only_grows_aux polls st).
Qed.

(** *** Replays *)

Lemma loop_body_settled (soup : Soup) (st : state) :
  settled fromisoformat st soup -> loop_body (Html soup) st = (Return tt, st).
Proof.
  intros [H|H]; [apply loop_body_skip | apply loop_body_seen]; exact H.
Qed.

Lemma settled_grows (soup : Soup) (st st' : state) :
  grows st st' -> settled fromisoformat st soup -> settled fromisoformat st' soup.
Proof.
  intros (Hs & _) [H|H]; [left; exact H | right; apply Hs; exact H].
Qed.

Lemma settled_after_loop_body (soup : Soup) (st : state) :
  settled fromisoformat (snd (loop_body (Html soup) st)) soup.
Proof.
  rewrite loop_body_html. simpl. unfold settled.
  destruct (truthy (content_of soup)) eqn:E.
  - destruct (decide (key_of soup ∈ seen_messages st)); [right; assumption|].
    right. simpl. apply elem_of_union_l, elem_of_singleton. reflexivity.
  - left. destruct (content_of soup); [reflexivity | discriminate].
Qed.

Lemma for_each_settled (soups : list Soup) (st : state) :
  Forall (settled fromisoformat st) soups ->
  for_each loop_body (map Html soups) st = (Return tt, st).
Proof.
  induction 1 as [|s soups Hs _ IH]; [reflexivity|].
  simpl map. rewrite (for_each_step _ _ _ _ _ (loop_body_settled s st Hs)).
  exact IH.
Qed.

Lemma settled_after_for_each (soups : list Soup) (st : state) :
  Forall (settled fromisoformat (snd (for_each loop_body (map Html soups) st)))
         soups.
Proof.
  revert st. induction soups as [|s soups IH]; intros st; [constructor|].
  simpl map. rewrite for_each_cons.
  pose proof (settled_after_loop_body s st) as Hs.
  rewrite loop_body_html in *. simpl in *. constructor; [|apply IH].
  eapply settled_grows; [|exact Hs]. apply grows_for_each.
Qed.

Lemma for_each_html_state (soups : list Soup) (st : state) :
  for_each loop_body (map Html soups) st
    = (Return tt, snd (for_each loop_body (map Html soups) st)).
Proof.
  pose proof (for_each_html_returns unicode_upper fromisoformat soups st) as H.
  destruct (for_each loop_body (map Html soups) st) as [[[]|e] st'];
    [reflexivity | discriminate].
Qed.

(** X2: once a batch of fragments that parse has been handled, the same
    fragments, in any selection and order, are ignored whenever the probe
    reports them again, also after any number of other polls in between:
    the replay leaves the whole state as it is and logs nothing. *)
Theorem replay_is_ignored (soups replay : list Soup)
    (polls : list (outcome (list RawFragment))) (st : state) :
  (forall s, s ∈ replay -> s ∈ soups) ->
  process_messages (Return (map Html replay))
    (snd (monitor_live (Return (map Html soups) :: polls) st))
  = (Return tt, snd (monitor_live (Return (map Html soups) :: polls) st)).
Proof.
  intros Hsub. rewrite process_messages_batch.
  rewrite for_each_settled; [reflexivity|].
  apply Forall_forall. intros s Hs.
  rewrite monitor_live_cons.
  eapply settled_grows.
  { apply (monitor_only_grows_aux polls). }
  rewrite process_messages_batch, for_each_html_state. simpl.
  pose proof (settled_after_for_each soups st) as Hall.
  rewrite Forall_forall in Hall. apply Hall, Hsub, Hs.
Qed.

(** *** Errors *)

Lemma loop_body_no_log (f : RawFragment) (st : state) :
  List.filter is_log_error (trace (snd (loop_body f st)))
    = List.filter is_log_error (trace st).
Proof.
  destruct f as [soup|e]; [|reflexivity].
  rewrite loop_body_html. simpl.
  destruct (truthy (content_of soup)); [|reflexivity].
  destruct (decide (key_of soup ∈ seen_messages st)); [reflexivity|].
  simpl. rewrite List.filter_app. simpl. apply app_nil_r.
Qed.

Lemma for_each_no_log (l : list RawFragment) (st : state) :
  List.filter is_log_error (trace (snd (for_each loop_body l st)))
    = List.filter is_log_error (trace st).
Proof.
  revert st. induction l as [|f l IH]; intros st; [reflexivity|].
  rewrite for_each_cons. pose proof (loop_body_no_log f st) as Hf.
  destruct (loop_body f st) as [[[]|e] st']; simpl in *; [|exact Hf].
  rewrite IH. exact Hf.
Qed.

Lemma process_messages_one_log (p : outcome (list RawFragment)) (st : state) :
  length (List.filter is_log_error (trace (snd (process_messages p st))))
    <= S (length (List.filter is_log_error (trace st))).
Proof.
  destruct p as [l|e].
  - rewrite process_messages_batch. pose proof (for_each_no_log l st) as Hl.
    destruct (for_each loop_body l st) as [[[]|e] st']; simpl in *.
    + rewrite Hl. lia.
    + rewrite List.filter_app, length_app, Hl. simpl. lia.
  - rewrite process_messages_raise. simpl.
    rewrite List.filter_app, length_app. simpl. lia.
Qed.

Lemma errors_bounded (polls : list (outcome (list RawFragment))) (st : state) :
  length (List.filter is_log_error (trace (snd (monitor_live polls st))))
    <= length polls + length (List.filter is_log_error (trace st)).
Proof.
  revert st. induction polls as [|p polls IH]; intros st; [simpl; lia|].
  rewrite monitor_live_cons. etrans; [apply IH|].
  pose proof (process_messages_one_log p st). simpl. lia.
Qed.

(** *** Order within any batch *)

(** X3: for any batch of fragments that parse, with or without
    duplicates and empty bodies, [process_messages] appends to the queue
    the records of a selection of the batch in batch order; the selected
    fragments have a body and pairwise distinct fingerprints that were not
    in [seen_messages] before. *)
Theorem batch_records_in_order (soups : list Soup) (st : state) :
  exists acc,
    sublist acc soups
    /\ queue (snd (process_messages (Return (map Html soups)) st))
       = queue st ++ map record_of acc
    /\ NoDup (map key_of acc)
    /\ Forall (fun s => content_of s <> [] /\ key_of s ∉ seen_messages st) acc
    /\ seen_messages (snd (process_messages (Return (map Html soups)) st))
       = list_to_set (map key_of acc) ∪ seen_messages st.
Proof.
  rewrite process_messages_batch, for_each_html_state. simpl.
  revert st. induction soups as [|s soups IH]; intros st.
  { exists []. simpl. rewrite app_nil_r, (left_id_L ∅ (∪)).
    repeat split; constructor. }
  simpl map. rewrite for_each_cons, loop_body_html.
  destruct (truthy (content_of s)) eqn:Ec.
  2:{ destruct (IH st) as (acc & Hsub & Hq & Hnd & Hall & Hs).
      exists acc. repeat split; auto. apply sublist_cons. exact Hsub. }
  destruct (decide (key_of s ∈ seen_messages st)) as [Hin|Hnew].
  { destruct (IH st) as (acc & Hsub & Hq & Hnd & Hall & Hs).
    exists acc. repeat split; auto. apply sublist_cons. exact Hsub. }
  destruct (IH (accept (key_of s) (record_of s) st))
    as (acc & Hsub & Hq & Hnd & Hall & Hs).
  simpl in Hq, Hall, Hs.
  exists (s :: acc). split; [apply sublist_skip; exact Hsub|].
  split; [rewrite Hq, <- app_assoc; reflexivity|].
  rewrite Forall_forall in Hall. split; [|split].
  - simpl. apply NoDup_cons. split; [|exact Hnd].
    intros (s' & Heq & Hs')%list_elem_of_fmap.
    destruct (Hall s' Hs') as [_ Hk]. apply Hk. rewrite <- Heq.
    apply elem_of_union_l, elem_of_singleton. reflexivity.
  - constructor.
    + split; [apply truthy_true; exact Ec | exact Hnew].
    + apply Forall_forall. intros s' Hs'. destruct (Hall s' Hs') as [Hc Hk].
      split; [exact Hc|]. intros Hin. apply Hk. apply elem_of_union_r. exact Hin.
  - rewrite Hs. simpl. rewrite (assoc_L (∪)). f_equal. apply (comm_L (∪)).
Qed.

(** *** Fingerprints and the separator *)

(** X4: the fingerprint joins display time and body with a hyphen and
    does not tell a hyphen of the display time from one of the body: a
    fragment whose display time ends in [-c] is taken for a duplicate of a
    fragment whose body starts with [c-], and its record is dropped. *)
Theorem separator_collision (soup soup' : Soup) (c : pystr) (st : state) :
  content_of soup <> [] -> key_of soup ∉ seen_messages st ->
  content_of soup = c ++ py "-" ++ content_of soup' ->
  display_time_of soup' = display_time_of soup ++ py "-" ++ c ->
  key_of soup' = key_of soup
  /\ queue (snd (process_messages (Return [Html soup; Html soup']) st))
     = queue st ++ [record_of soup].
Proof.
  intros Hc Hk Hb Ht.
  assert (E : key_of soup' = key_of soup).
  { unfold key_of, unique_key_of. rewrite Hb, Ht, <- !app_assoc. reflexivity. }
  split; [exact E|].
  rewrite (twice_in_one_batch _ _ soup soup' st Hc Hk E). reflexivity.
Qed.

(** *** One fingerprint per record *)

(** X5: in a monitor started afresh, after any polls, [seen_messages]
    holds as many fingerprints as records were put on the queue, and each
    poll logged at most one error. *)
Theorem one_fingerprint_per_record (polls : list (outcome (list RawFragment))) :
  size (seen_messages (snd (monitor_live polls init_state)))
    = length (queue (snd (monitor_live polls init_state)))
  /\ length (List.filter is_log_error
               (trace (snd (monitor_live polls init_state))))
     <= length polls.
Proof.
  split.
  - destruct (Inv_monitor_live unicode_upper fromisoformat polls init_state
                (Inv_init unicode_upper)) as (_ & Hq & Hs & Hnd).
    rewrite Hs, Hq, size_list_to_set by exact Hnd.
    rewrite !length_map. reflexivity.
  - pose proof (errors_bounded polls init_state) as H. simpl in H. lia.
Qed.

End MonitorOverTime.

(** ** The input line *)

Lemma handle_key_plain (ch : Z) (st : ui) :
  plain_key ch ->
  handle_key ch st
    = {| input_buffer := input_buffer st ++ [chr ch]; sent := sent st |}.
Proof.
  intros ([H0 H255] & H10 & H13 & H127). unfold handle_key.
  unfold KEY_ENTER, KEY_BACKSPACE.
  destruct (Z.eqb_spec ch (-1)); [lia|].
  destruct (Z.eqb_spec ch 343); [lia|].
  destruct (Z.eqb_spec ch 10); [lia|].
  destruct (Z.eqb_spec ch 13); [lia|].
  destruct (Z.eqb_spec ch 263); [lia|].
  destruct (Z.eqb_spec ch 127); [lia|]. simpl.
  apply Z.leb_le in H0, H255. rewrite H0, H255. reflexivity.
Qed.



Lemma type_keys_app (k1 k2 : list Z) (st : ui) :
  type_keys (k1 ++ k2) st = type_keys k2 (type_keys k1 st).
Proof. apply fold_left_app. Qed.

Lemma type_keys_plain (keys : list Z) (st : ui) :
  Forall plain_key keys ->
  type_keys keys st
    = {| input_buffer := input_buffer st ++ map chr keys; sent := sent st |}.
Proof.
  intros H. revert st. induction H as [|ch keys Hch _ IH]; intros st.
  - simpl. rewrite app_nil_r. destruct st; reflexivity.
  - simpl. rewrite handle_key_plain by exact Hch. rewrite IH. simpl.
    rewrite <- app_assoc. reflexivity.
Qed.










(** What the keystroke step keeps true of the input line: the buffer
    holds only characters a key can put there, and every message sent has
    only such characters and is not blank. *)
Lemma clean_handle_key (ch : Z) (st : ui) :
  clean st -> clean (handle_key ch st).
Proof.
  intros [Hb Hs]. unfold handle_key.
  destruct (negb (ch =? -1)%Z); [|split; assumption].
  destruct ((ch =? KEY_ENTER) || (ch =? 10) || (ch =? 13))%Z eqn:Ee.
  { destruct (truthy (strip (input_buffer st))) eqn:Et; [|split; assumption].
    split; simpl; [constructor|].
    apply Forall_app. split; [exact Hs|]. constructor; [|constructor].
    split; [|exact Hb]. apply strip_truthy. exact Et. }
  destruct ((ch =? KEY_BACKSPACE) || (ch =? 127))%Z eqn:Eb.
  { split; simpl; [|exact Hs]. clear -Hb.
    induction Hb as [|c [|c' l] Hc Hl IH]; simpl; constructor; auto. }
  destruct ((0 <=? ch) && (ch <=? 255))%Z eqn:Er; [|split; assumption].
  split; simpl; [|exact Hs].
  apply Forall_app. split; [exact Hb|]. constructor; [|constructor].
  apply andb_true_iff in Er as [H0 H255]. apply Z.leb_le in H0, H255.
  apply orb_false_elim in Ee as [Ee E13]. apply orb_false_elim in Ee as [_ E10].
  apply orb_false_elim in Eb as [_ E127].
  apply Z.eqb_neq in E10, E13, E127. unfold buffer_char, chr. lia.
Qed.

(** X8: whatever keys are read, from the start of the loop on, the buffer
    never holds a line feed, a carriage return or the delete character,
    nor a code point above 255; and every message handed to
    [send_message] is free of them too and is not blank. *)
Theorem input_line_stays_clean (keys : list Z) :
  Forall buffer_char (input_buffer (type_keys keys init_ui))
  /\ Forall (fun m => strip m <> [] /\ Forall buffer_char m)
            (sent (type_keys keys init_ui)).
Proof.
  assert (H : forall st, clean st -> clean (type_keys keys st)).
  { induction keys as [|ch keys IH]; intros st Hst; [exact Hst|].
    simpl. apply IH, clean_handle_key, Hst. }
  apply (H init_ui). split; constructor.
Qed.

(** ** The normalizer on whole texts *)

(** [contains] is the occurrence of a word. *)
Lemma contains_spec (p s : pystr) :
  contains p s = true <-> exists pre post, s = pre ++ p ++ post.
Proof.
  split.
  - induction s as [|c t IH]; simpl.
    + destruct (strip_prefix p []) as [r|] eqn:E; [|discriminate].
      intros _. exists [], r. exact (proj1 (strip_prefix_Some _ _ _) E).
    + destruct (strip_prefix p (c :: t)) as [r|] eqn:E.
      * intros _. exists [], r. exact (proj1 (strip_prefix_Some _ _ _) E).
      * intros H. destruct (IH H) as (pre & post & ->).
        exists (c :: pre), post. reflexivity.
  - intros (pre & post & ->). induction pre as [|c pre IH].
    + simpl. destruct (p ++ post) eqn:E; simpl; rewrite <- E;
        rewrite strip_prefix_app; reflexivity.
    + simpl. destruct (strip_prefix p (c :: pre ++ p ++ post));
        [reflexivity | exact IH].
Qed.

Lemma contains_cons_None (p : pystr) (c : N) (t : pystr) :
  strip_prefix p (c :: t) = None -> contains p (c :: t) = contains p t.
Proof. intros E. simpl. rewrite E. reflexivity. Qed.

Lemma strip_prefix_cons (a c : N) (p s : pystr) :
  strip_prefix (a :: p) (c :: s)
    = if (a =? c)%N then strip_prefix p s else None.
Proof. reflexivity. Qed.

Lemma contains_skip_prefix (p' pre s : pystr) :
  Forall no_bracket pre ->
  contains (91%N :: p') (pre ++ s) = contains (91%N :: p') s.
Proof.
  induction 1 as [|c pre Hc _ IH]; [reflexivity|].
  simpl app. rewrite contains_cons_None; [exact IH|].
  rewrite strip_prefix_cons. destruct (N.eqb_spec 91 c) as [<-|_]; [|reflexivity].
  exfalso. apply Hc. reflexivity.
Qed.

Lemma contains_bracket_free (p' s : pystr) :
  Forall no_bracket s -> contains (91%N :: p') s = false.
Proof.
  intros H. rewrite <- (app_nil_r s), contains_skip_prefix by exact H.
  reflexivity.
Qed.

Section ReSubOpen.

Variable re : pystr -> option Match.
Variable repl : Match -> pystr.
Variable open : pystr.

(** The pattern begins with the literal [open], which begins with the
    opening bracket. *)
Hypothesis re_open : forall s m, re s = Some m -> strip_prefix open s <> None.
Hypothesis open_bracket : exists o, open = 91%N :: o.

Lemma re_search_no_open (s : pystr) :
  contains open s = false -> re_search re s = false.
Proof.
  induction s as [|c t IH]; simpl.
  - destruct (re []) as [m|] eqn:E; [|reflexivity].
    apply re_open in E. destruct (strip_prefix open []); [discriminate|].
    contradiction.
  - destruct (re (c :: t)) as [m|] eqn:E.
    + apply re_open in E. destruct (strip_prefix open (c :: t));
        [discriminate | contradiction].
    + destruct (strip_prefix open (c :: t)); [discriminate | exact IH].
Qed.

(** Where the opening tag occurs nowhere, the rewrite changes nothing. *)
Lemma re_sub_no_open (s : pystr) :
  contains open s = false -> re_sub re repl s = s.
Proof. intros H. apply re_sub_no_match, re_search_no_open, H. Qed.

Lemma re_sub_bracket_free (s : pystr) :
  Forall no_bracket s -> re_sub re repl s = s.
Proof.
  intros H. apply re_sub_no_open. destruct open_bracket as [o ->].
  apply contains_bracket_free. exact H.
Qed.

(** Text without a bracket before the first tag is copied. *)
Lemma re_sub_copy_prefix (pre s : pystr) :
  Forall no_bracket pre -> re_sub re repl (pre ++ s) = pre ++ re_sub re repl s.
Proof.
  induction 1 as [|c pre Hc _ IH]; [reflexivity|].
  simpl app. rewrite re_sub_skip; [rewrite IH; reflexivity|].
  destruct (re (c :: pre ++ s)) as [m|] eqn:E; [|reflexivity].
  apply re_open in E. destruct open_bracket as [o ->].
  rewrite strip_prefix_cons in E.
  destruct (N.eqb_spec 91 c) as [<-|_]; [|contradiction].
  exfalso. apply Hc. reflexivity.
Qed.

End ReSubOpen.

Lemma tag_re_open (open close s : pystr) (m : Match) :
  tag_re open close s = Some m -> strip_prefix open s <> None.
Proof.
  unfold tag_re. destruct (strip_prefix open s); [discriminate|].
  discriminate.
Qed.

Lemma color_re_open (s : pystr) (m : Match) :
  color_re s = Some m -> strip_prefix (py "[color=") s <> None.
Proof.
  unfold color_re. destruct (strip_prefix (py "[color=") s); discriminate.
Qed.

Lemma tag_re_close (open close s : pystr) (m : Match) :
  tag_re open close s = Some m -> contains close s = true.
Proof.
  unfold tag_re. destruct (strip_prefix open s) as [r|] eqn:E; [|discriminate].
  destruct (lazy_until close r) as [[g r']|] eqn:E'; [|discriminate].
  intros _. apply strip_prefix_Some in E. apply lazy_until_sound in E'.
  apply contains_spec. exists (open ++ g), r'. subst.
  rewrite <- app_assoc. reflexivity.
Qed.

Lemma color_re_close (s : pystr) (m : Match) :
  color_re s = Some m -> contains (py "[/color]") s = true.
Proof.
  unfold color_re.
  destruct (strip_prefix (py "[color=") s) as [r|] eqn:E; [|discriminate].
  destruct (span_attr r) as [a r1] eqn:Ea.
  destruct a as [|a0 a]; [discriminate|].
  destruct r1 as [|c r']; [discriminate|].
  destruct (N.eqb c 93); [|discriminate].
  destruct (lazy_until (py "[/color]") r') as [[g r'']|] eqn:E'; [|discriminate].
  intros _. apply strip_prefix_Some in E. apply span_attr_app in Ea.
  apply lazy_until_sound in E'. apply contains_spec.
  exists (py "[color=" ++ (a0 :: a) ++ c :: g), r''. subst.
  rewrite <- (app_assoc (py "[color=")). f_equal.
  rewrite <- app_assoc. reflexivity.
Qed.

Lemma contains_tail (p : pystr) (c : N) (t : pystr) :
  contains p (c :: t) = false -> contains p t = false.
Proof. simpl. destruct (strip_prefix p (c :: t)); [discriminate | auto]. Qed.

(** Where the closing tag occurs nowhere, the pattern matches nowhere. *)
Lemma re_search_no_close (re : pystr -> option Match) (close s : pystr) :
  (forall s m, re s = Some m -> contains close s = true) ->
  contains close s = false -> re_search re s = false.
Proof.
  intros Hre. induction s as [|c t IH]; intros H; simpl.
  - destruct (re []) as [m|] eqn:E; [|reflexivity].
    apply Hre in E. congruence.
  - destruct (re (c :: t)) as [m|] eqn:E.
    + apply Hre in E. congruence.
    + apply IH. eapply contains_tail. exact H.
Qed.

(** X9: a text without an opening bracket comes out of [parse_bbcode] as
    it went in, whatever else it holds; on such a text the normalizer is
    therefore idempotent. *)
Theorem bracket_free_text_unchanged (unicode_upper : N -> pystr)
    (text : pystr) :
  Forall no_bracket text ->
  parse_bbcode unicode_upper text = text
  /\ parse_bbcode unicode_upper (parse_bbcode unicode_upper text)
     = parse_bbcode unicode_upper text.
Proof.
  intros H.
  assert (E : parse_bbcode unicode_upper text = text).
  { unfold parse_bbcode, sub_bold, sub_italic, sub_color.
    rewrite (re_sub_bracket_free bold_re _ (py "[b]")
               (tag_re_open _ _) (ex_intro _ _ eq_refl) text H).
    rewrite (re_sub_bracket_free italic_re _ (py "[i]")
               (tag_re_open _ _) (ex_intro _ _ eq_refl) text H).
    exact (re_sub_bracket_free color_re _ (py "[color=")
             color_re_open (ex_intro _ _ eq_refl) text H). }
  split; [exact E | rewrite !E; reflexivity].
Qed.

Lemma bracket_free_text_unchanged_witness :
  parse_bbcode no_table (py "10 ] 20 /b") = py "10 ] 20 /b".
Proof.
  apply (bracket_free_text_unchanged no_table (py "10 ] 20 /b")).
  by_compute.
Defined.

(** X10: tags that are never closed are left as they are: a text in which
    none of the three closing tags occurs comes out of [parse_bbcode]
    unchanged, whatever opening tags it holds. *)
Theorem unclosed_tags_unchanged (unicode_upper : N -> pystr) (text : pystr) :
  contains (py "[/b]") text = false ->
  contains (py "[/i]") text = false ->
  contains (py "[/color]") text = false ->
  parse_bbcode unicode_upper text = text.
Proof.
  intros Hb Hi Hc. unfold parse_bbcode, sub_bold, sub_italic, sub_color.
  rewrite (re_sub_no_match bold_re _ text
             (re_search_no_close _ _ _ (tag_re_close _ _) Hb)).
  rewrite (re_sub_no_match italic_re _ text
             (re_search_no_close _ _ _ (tag_re_close _ _) Hi)).
  exact (re_sub_no_match color_re _ text
           (re_search_no_close _ _ _ color_re_close Hc)).
Qed.

Lemma unclosed_tags_unchanged_witness :
  parse_bbcode no_table (py "[b]bold [i]it [color=red]x [/u]")
    = py "[b]bold [i]it [color=red]x [/u]".
Proof.
  apply (unclosed_tags_unchanged no_table
           (py "[b]bold [i]it [color=red]x [/u]")); vm_compute; reflexivity.
Defined.

(** ** The normalizer on one span *)

Lemma lazy_until_eq (close s : pystr) :
  lazy_until close s =
    match strip_prefix close s with
    | Some r => Some ([], r)
    | None =>
        match s with
        | [] => None
        | c :: t =>
            match lazy_until close t with
            | Some (g, r) => Some (c :: g, r)
            | None => None
            end
        end
    end.
Proof. destruct s; reflexivity. Qed.

(** A group without an opening bracket ends at the closing tag that
    follows it. *)
Lemma lazy_until_bracket_free (cl g r : pystr) :
  Forall no_bracket g ->
  lazy_until (91%N :: cl) (g ++ (91%N :: cl) ++ r) = Some (g, r).
Proof.
  induction 1 as [|c g Hc _ IH].
  - change ([] ++ (91%N :: cl) ++ r) with ((91%N :: cl) ++ r).
    rewrite lazy_until_eq, strip_prefix_app. reflexivity.
  - change ((c :: g) ++ (91%N :: cl) ++ r)
      with (c :: g ++ (91%N :: cl) ++ r).
    rewrite lazy_until_eq, strip_prefix_cons.
    destruct (N.eqb_spec 91 c) as [<-|_]; [exfalso; apply Hc; reflexivity|].
    rewrite IH. reflexivity.
Qed.

Lemma tag_re_span (open cl g r : pystr) :
  Forall no_bracket g ->
  tag_re open (91%N :: cl) (open ++ g ++ (91%N :: cl) ++ r)
    = Some {| groups := [g]; rest := r |}.
Proof.
  intros Hg. unfold tag_re.
  rewrite strip_prefix_app, (lazy_until_bracket_free cl g r Hg). reflexivity.
Qed.

Lemma color_re_span (a g r : pystr) :
  a <> [] -> Forall attr_char a -> Forall no_bracket g ->
  color_re (py "[color=" ++ a ++ py "]" ++ g ++ py "[/color]" ++ r)
    = Some {| groups := [a; g]; rest := r |}.
Proof.
  intros Ha Hattr Hg. unfold color_re. rewrite strip_prefix_app.
  change (py "]" ++ g ++ py "[/color]" ++ r)
    with (93%N :: g ++ py "[/color]" ++ r).
  rewrite span_attr_run.
  2:{ eapply Forall_impl; [exact Hattr|]. intros c [_ H]. exact H. }
  destruct a as [|a0 a]; [congruence|]. rewrite N.eqb_refl.
  change (py "[/color]") with (91%N :: py "/color]").
  rewrite (lazy_until_bracket_free _ g r Hg). reflexivity.
Qed.

Lemma attr_no_bracket (a : pystr) : Forall attr_char a -> Forall no_bracket a.
Proof. intros H. eapply Forall_impl; [exact H|]. intros c [Hc _]. exact Hc. Qed.

(** The text is walked over: literal characters one at a time, pieces
    without a bracket at once. *)
Ltac no_tag :=
  repeat first [ rewrite contains_skip_prefix by assumption
               | rewrite contains_cons_None by reflexivity ];
  try (apply contains_bracket_free; assumption).

Section Spans.

Variable unicode_upper : N -> pystr.

Local Abbreviation parse_bbcode := (parse_bbcode unicode_upper).
Local Abbreviation sub_bold := (sub_bold unicode_upper).
Local Abbreviation upper := (upper unicode_upper).

Lemma sub_bold_no_open (s : pystr) :
  contains (py "[b]") s = false -> sub_bold s = s.
Proof.
  apply (re_sub_no_open bold_re _ (py "[b]") (tag_re_open _ _)).
Qed.

Lemma sub_italic_no_open (s : pystr) :
  contains (py "[i]") s = false -> sub_italic s = s.
Proof.
  apply (re_sub_no_open italic_re _ (py "[i]") (tag_re_open _ _)).
Qed.

Lemma sub_color_no_open (s : pystr) :
  contains (py "[color=") s = false -> sub_color s = s.
Proof.
  apply (re_sub_no_open color_re _ (py "[color=") color_re_open).
Qed.

(** X11: a bold span between texts without brackets: the text before and
    after is kept, the tags are removed and the text between them is
    upper-cased, provided neither it nor its upper-case form holds an
    opening bracket. *)
Theorem bold_span (pre g post : pystr) :
  Forall no_bracket pre -> Forall no_bracket g -> Forall no_bracket post ->
  Forall no_bracket (upper g) ->
  parse_bbcode (pre ++ py "[b]" ++ g ++ py "[/b]" ++ post)
    = pre ++ upper g ++ post.
Proof.
  intros Hpre Hg Hpost Hup. unfold parse_bbcode.
  assert (Hout : Forall no_bracket (pre ++ upper g ++ post)).
  { apply Forall_app. split; [exact Hpre|]. apply Forall_app. auto. }
  assert (E : sub_bold (pre ++ py "[b]" ++ g ++ py "[/b]" ++ post)
              = pre ++ upper g ++ post).
  { unfold sub_bold.
    rewrite (re_sub_copy_prefix bold_re _ (py "[b]") (tag_re_open _ _)
               (ex_intro _ _ eq_refl) pre _ Hpre).
    f_equal.
    rewrite (re_sub_match bold_re _ bold_re_rest _ _
               (tag_re_span (py "[b]") (py "/b]") g post Hg)).
    unfold group. simpl. f_equal.
    exact (re_sub_bracket_free bold_re _ (py "[b]") (tag_re_open _ _)
             (ex_intro _ _ eq_refl) post Hpost). }
  rewrite E.
  rewrite sub_italic_no_open
    by (change (py "[i]") with (91%N :: py "i]");
        apply contains_bracket_free; exact Hout).
  apply sub_color_no_open. change (py "[color=") with (91%N :: py "color=").
  apply contains_bracket_free. exact Hout.
Qed.

(** X12: an italic span between texts without brackets: the text
    before and after is kept, and the text between the tags is put
    between two underscores, provided it holds no opening bracket. *)
Theorem italic_span (pre g post : pystr) :
  Forall no_bracket pre -> Forall no_bracket g -> Forall no_bracket post ->
  parse_bbcode (pre ++ py "[i]" ++ g ++ py "[/i]" ++ post)
    = pre ++ py "_" ++ g ++ py "_" ++ post.
Proof.
  intros Hpre Hg Hpost. unfold parse_bbcode.
  assert (Hout : Forall no_bracket (pre ++ py "_" ++ g ++ py "_" ++ post)).
  { repeat (apply Forall_app; split); try assumption;
      repeat constructor; discriminate. }
  rewrite sub_bold_no_open.
  2:{ change (py "[b]") with (91%N :: py "b]").
      change (py "[i]") with [91; 105; 93]%N.
      change (py "[/i]") with [91; 47; 105; 93]%N. simpl app. no_tag. }
  unfold sub_italic.
  rewrite (re_sub_copy_prefix italic_re _ (py "[i]") (tag_re_open _ _)
             (ex_intro _ _ eq_refl) pre _ Hpre).
  rewrite (re_sub_match italic_re _ italic_re_rest _ _
             (tag_re_span (py "[i]") (py "/i]") g post Hg)).
  rewrite (re_sub_bracket_free italic_re _ (py "[i]") (tag_re_open _ _)
             (ex_intro _ _ eq_refl) post Hpost).
  unfold group. simpl nth. simpl rest. rewrite <- !app_assoc.
  apply sub_color_no_open. change (py "[color=") with (91%N :: py "color=").
  apply contains_bracket_free. exact Hout.
Qed.

(** X13: a color span between texts without brackets: the text before
    and after is kept, and the tags with the color attribute are removed
    around the text between them, provided that text holds no opening
    bracket and the attribute is not empty and holds no bracket. *)
Theorem color_span (pre a g post : pystr) :
  a <> [] -> Forall attr_char a ->
  Forall no_bracket pre -> Forall no_bracket g -> Forall no_bracket post ->
  parse_bbcode (pre ++ py "[color=" ++ a ++ py "]" ++ g ++ py "[/color]" ++ post)
    = pre ++ g ++ post.
Proof.
  intros Ha Hattr Hpre Hg Hpost. unfold parse_bbcode.
  pose proof (attr_no_bracket a Hattr) as Ha'.
  rewrite sub_bold_no_open.
  2:{ change (py "[b]") with (91%N :: py "b]").
      change (py "[color=") with [91; 99; 111; 108; 111; 114; 61]%N.
      change (py "]") with [93]%N.
      change (py "[/color]") with [91; 47; 99; 111; 108; 111; 114; 93]%N.
      simpl app. no_tag. }
  rewrite sub_italic_no_open.
  2:{ change (py "[i]") with (91%N :: py "i]").
      change (py "[color=") with [91; 99; 111; 108; 111; 114; 61]%N.
      change (py "]") with [93]%N.
      change (py "[/color]") with [91; 47; 99; 111; 108; 111; 114; 93]%N.
      simpl app. no_tag. }
  unfold sub_color.
  rewrite (re_sub_copy_prefix color_re _ (py "[color=") color_re_open
             (ex_intro _ _ eq_refl) pre _ Hpre).
  rewrite (re_sub_match color_re _ color_re_rest _ _
             (color_re_span a g post Ha Hattr Hg)).
  rewrite (re_sub_bracket_free color_re _ (py "[color=") color_re_open
             (ex_intro _ _ eq_refl) post Hpost).
  reflexivity.
Qed.

End Spans.

Lemma bold_span_witness :
  parse_bbcode no_table (py "say " ++ py "[b]" ++ py "hello" ++ py "[/b]"
                         ++ py " world")
    = py "say " ++ upper no_table (py "hello") ++ py " world".
Proof.
  apply (bold_span no_table (py "say ") (py "hello") (py " world"));
    by_compute.
Defined.

Lemma italic_span_witness :
  parse_bbcode no_table (py "say " ++ py "[i]" ++ py "hello" ++ py "[/i]"
                         ++ py " world")
    = py "say " ++ py "_" ++ py "hello" ++ py "_" ++ py " world".
Proof.
  apply (italic_span no_table (py "say ") (py "hello") (py " world"));
    by_compute.
Defined.

Lemma color_span_witness :
  parse_bbcode no_table (py "say " ++ py "[color=" ++ py "#ff0000" ++ py "]"
                         ++ py "hello" ++ py "[/color]" ++ py " world")
    = py "say " ++ py "hello" ++ py " world".
Proof.
  apply (color_span no_table (py "say ") (py "#ff0000") (py "hello")
           (py " world")); by_compute.
Defined.

(** ** From the page to the probe *)

Lemma on_added_node_pending (msgs : list pystr) (c : bool) (k : nat)
    (nodes : list node) :
  fold_left on_added_node nodes
    {| newMessages := Some msgs; has_container := c; observers := k |}
  = {| newMessages := Some (msgs ++ flat_map li_html nodes);
       has_container := c; observers := k |}.
Proof.
  revert msgs. induction nodes as [|n nodes IH]; intros msgs.
  - simpl. rewrite app_nil_r. reflexivity.
  - simpl. unfold on_added_node at 2, li_html at 1.
    destruct (is_element n && matches_li n); simpl.
    + unfold push. simpl. rewrite IH, <- app_assoc. reflexivity.
    + apply IH.
Qed.

Lemma observer_callback_pending (msgs : list pystr) (c : bool) (k : nat)
    (mutations : list (list node)) :
  observer_callback mutations
    {| newMessages := Some msgs; has_container := c; observers := k |}
  = {| newMessages := Some (msgs ++ flat_map (flat_map li_html) mutations);
       has_container := c; observers := k |}.
Proof.
  unfold observer_callback. revert msgs.
  induction mutations as [|m mutations IH]; intros msgs.
  - simpl. rewrite app_nil_r. reflexivity.
  - simpl. rewrite on_added_node_pending, IH, <- app_assoc. reflexivity.
Qed.

Lemma run_page_observed (evs : list page_event) (msgs : list pystr) :
  concat (map fragments_of
            (fst (run_page evs {| newMessages := Some msgs;
                                  has_container := true; observers := 1 |})))
    ++ fragments_of
         (newMessages
            (snd (run_page evs {| newMessages := Some msgs;
                                  has_container := true; observers := 1 |})))
  = msgs ++ added_li evs
  /\ Forall (fun o => o <> None)
       (fst (run_page evs {| newMessages := Some msgs;
                             has_container := true; observers := 1 |})).
Proof.
  revert msgs. induction evs as [|[ms| |] evs IH]; intros msgs.
  - simpl. rewrite app_nil_r. auto.
  - simpl run_page. unfold deliver. simpl Nat.iter.
    rewrite observer_callback_pending. simpl added_li.
    rewrite app_assoc. apply IH.
  - simpl run_page. unfold poll. simpl.
    destruct (IH []) as [E Hall].
    destruct (run_page evs _) as [outs p'] eqn:Er. simpl in *.
    rewrite <- app_assoc, E. split; [reflexivity|].
    constructor; [discriminate | exact Hall].
  - simpl run_page. apply IH.
Qed.

(** X14: once [init_observer] has run on a page that has the chat
    container, every [li] element added to it is handed to exactly one
    poll, in the order the elements were added: whatever the mutations,
    polls and further calls of [init_observer], the batches the polls
    return, joined, and what is still waiting in the page make up the
    [outerHTML] of the added [li] elements, no more and no less.  Other
    nodes are never reported, and no poll returns the undefined value. *)
Theorem every_li_reported_once (evs : list page_event) :
  concat (map fragments_of
            (fst (run_page evs (init_observer (fresh_page true)))))
    ++ fragments_of
         (newMessages (snd (run_page evs (init_observer (fresh_page true)))))
  = added_li evs
  /\ Forall (fun o => o <> None)
       (fst (run_page evs (init_observer (fresh_page true)))).
Proof. exact (run_page_observed evs []). Qed.

Lemma run_page_unobserved (evs : list page_event) :
  run_page evs {| newMessages := Some []; has_container := false;
                  observers := 0 |}
  = (map (fun _ => Some []) (List.filter
           (fun e => match e with Poll => true | _ => false end) evs),
     {| newMessages := Some []; has_container := false; observers := 0 |}).
Proof.
  induction evs as [|[ms| |] evs IH]; simpl.
  - reflexivity.
  - exact IH.
  - unfold poll. simpl. rewrite IH. reflexivity.
  - exact IH.
Qed.

(** X15: when the chat container is not in the page at the time
    [init_observer] runs, no observer is ever installed: every later poll
    returns the empty batch whatever is added to the page, and calling
    [init_observer] again changes nothing, since [window.newMessages] is
    then defined. *)
Theorem missing_container_is_silent (evs : list page_event) :
  Forall (fun o => o = Some [])
    (fst (run_page evs (init_observer (fresh_page false))))
  /\ snd (run_page evs (init_observer (fresh_page false)))
     = init_observer (fresh_page false)
  /\ init_observer (init_observer (fresh_page false))
     = init_observer (fresh_page false).
Proof.
  change (init_observer (fresh_page false))
    with {| newMessages := Some []; has_container := false; observers := 0 |}.
  rewrite run_page_unobserved. simpl. split; [|auto].
  apply Forall_forall. intros o (e & -> & _)%list_elem_of_fmap. reflexivity.
Qed.

(** ** Colors by name *)

Section ColorNames.

Variable unicode_upper : N -> pystr.
Variable unicode_lower : pystr -> N -> pystr -> pystr.

Local Abbreviation upper := (upper unicode_upper).
Local Abbreviation lower_from := (lower_from unicode_lower).
Local Abbreviation lower := (lower unicode_lower).
Local Abbreviation convert_color := (convert_color unicode_lower).

Lemma lower_char_ascii (c : N) (b a b' a' : pystr) :
  ascii_char c ->
  lower_char unicode_lower b c a = lower_char unicode_lower b' c a'.
Proof.
  unfold ascii_char, lower_char. intros Hc.
  destruct ((65 <=? c)%N && (c <=? 90)%N); [reflexivity|].
  destruct (N.ltb_spec c 128); [reflexivity | lia].
Qed.

Lemma upper_char_ascii (c : N) :
  ascii_char c ->
  exists x, upper_char unicode_upper c = [x] /\ ascii_char x
    /\ forall b a b' a', lower_char unicode_lower b x a
                         = lower_char unicode_lower b' c a'.
Proof.
  intros Hc.
  assert (same_char :
    exists x, (if (c <? 128)%N then [c] else unicode_upper c) = [x]
      /\ ascii_char x
      /\ forall b a b' a', lower_char unicode_lower b x a
                           = lower_char unicode_lower b' c a').
  { destruct (N.ltb_spec c 128); [|unfold ascii_char in Hc; lia].
    exists c. split; [reflexivity|]. split; [exact Hc|].
    intros. apply lower_char_ascii. exact Hc. }
  unfold ascii_char, upper_char, lower_char in *.
  destruct (N.leb_spec 97 c), (N.leb_spec c 122); simpl.
  - exists (c - 32)%N. split; [reflexivity|]. split; [lia|]. intros.
    destruct (N.leb_spec 65 (c - 32)), (N.leb_spec (c - 32) 90); simpl;
      try lia.
    destruct (N.leb_spec 65 c), (N.leb_spec c 90); simpl; try lia;
      (destruct (N.ltb_spec c 128); [f_equal; lia | lia]).
  - apply same_char.
  - apply same_char.
  - apply same_char.
Qed.

Lemma lower_upper_ascii (s before before' : pystr) :
  Forall ascii_char s -> lower_from before (upper s) = lower_from before' s.
Proof.
  intros H. revert before before'.
  induction H as [|c t Hc _ IH]; intros before before'; [reflexivity|].
  unfold upper. simpl flat_map.
  destruct (upper_char_ascii c Hc) as (x & -> & _ & Hx).
  simpl. rewrite (Hx before (flat_map (upper_char unicode_upper) t) before' t).
  f_equal. apply IH.
Qed.

(** X16: [convert_color] answers with one of five color names or with the
    empty string, the empty string being the answer for every code that,
    lower-cased, is not a key of its table; and on ASCII codes it does not
    tell upper case from lower case. *)
Theorem convert_color_names (hex_code : pystr) :
  convert_color hex_code
    ∈ [[]; py "RED"; py "GREEN"; py "BLUE"; py "YELLOW"; py "GRAY"]
  /\ (lower hex_code
        ∉ [py "#ff0000"; py "#00ff00"; py "#0000ff"; py "#ffff00";
           py "#888888"; py "#8888"] ->
      convert_color hex_code = [])
  /\ (Forall ascii_char hex_code ->
      convert_color (upper hex_code) = convert_color hex_code).
Proof.
  split; [|split].
  - unfold convert_color.
    destruct (hex_to_color !! lower hex_code) as [v|] eqn:E;
      [|apply list_elem_of_here].
    apply elem_of_list_to_map_2 in E.
    repeat (apply elem_of_cons in E as [E|E];
            [injection E as _ ->; by_compute|]).
    apply elem_of_nil in E. contradiction.
  - intros Hno. unfold convert_color.
    destruct (hex_to_color !! lower hex_code) as [v|] eqn:E; [|reflexivity].
    exfalso. apply Hno. apply elem_of_list_to_map_2 in E.
    repeat (apply elem_of_cons in E as [E|E];
            [injection E as -> _; by_compute|]).
    apply elem_of_nil in E. contradiction.
  - intros H. unfold convert_color, lower.
    rewrite (lower_upper_ascii hex_code [] [] H). reflexivity.
Qed.

End ColorNames.

Lemma convert_color_names_witness :
  convert_color no_lower_table (upper no_table (py "#ff0000"))
    = convert_color no_lower_table (py "#ff0000").
Proof.
  apply (convert_color_names no_table no_lower_table (py "#ff0000")).
  by_compute.
Defined.

(** ** The further properties on sample data *)

Lemma replay_is_ignored_witness :
  process_messages no_table sample_fromisoformat
    (Return (map Html [carol_later; alice_hello]))
    (snd (monitor_live no_table sample_fromisoformat
            (Return (map Html [alice_hello; carol_later])
             :: [Raise (py "boom")]) init_state))
  = (Return tt,
     snd (monitor_live no_table sample_fromisoformat
            (Return (map Html [alice_hello; carol_later])
             :: [Raise (py "boom")]) init_state)).
Proof.
  apply (replay_is_ignored no_table sample_fromisoformat
           [alice_hello; carol_later] [carol_later; alice_hello]
           [Raise (py "boom")] init_state).
  intros s Hs.
  apply elem_of_cons in Hs as [->|Hs];
    [apply list_elem_of_further, list_elem_of_here|].
  apply elem_of_cons in Hs as [->|Hs]; [apply list_elem_of_here|].
  apply elem_of_nil in Hs. contradiction.
Defined.

Lemma separator_collision_witness :
  key_of sample_fromisoformat hyphen_time
    = key_of sample_fromisoformat hyphen_body
  /\ queue (snd (process_messages no_table sample_fromisoformat
                   (Return [Html hyphen_body; Html hyphen_time]) init_state))
     = queue init_state ++ [record_of no_table sample_fromisoformat hyphen_body].
Proof.
  apply (separator_collision no_table sample_fromisoformat
           hyphen_body hyphen_time (py "b") init_state).
  - vm_compute. discriminate.
  - by_compute.
  - vm_compute. reflexivity.
  - vm_compute. reflexivity.
Defined.

(** ** The monitor on a page *)

Section MonitorOnPageProperties.

Variable unicode_upper : N -> pystr.
Variable fromisoformat : pystr -> option datetime.
Variable html_parser : pystr -> RawFragment.

Local Abbreviation loop_body := (loop_body unicode_upper fromisoformat).
Local Abbreviation process_messages := (process_messages unicode_upper fromisoformat).
Local Abbreviation process_page :=
  (process_page unicode_upper fromisoformat html_parser).

(** X17: fragments that follow an unparsable one in a batch are lost for
    good: the call of [process_messages] that meets the unparsable
    fragment handles the fragments before it, logs the error, and leaves
    the page with an empty [window.newMessages], so that the fragments
    after it are neither handled now nor reported by a later poll. *)
Theorem fragments_after_error_are_lost (l1 l2 : list pystr) (bad e : pystr)
    (soups : list Soup) (c : bool) (k : nat) (st : state) :
  map html_parser l1 = map Html soups ->
  html_parser bad = Unparsable e ->
  process_page {| newMessages := Some (l1 ++ bad :: l2);
                  has_container := c; observers := k |} st
  = ({| newMessages := Some []; has_container := c; observers := k |},
     logged (Fore_RED ++ py "Error processing messages: " ++ e)
            (snd (for_each loop_body (map Html soups) st))).
Proof.
  intros Hl1 Hbad. unfold process_page, poll, probe_result. simpl.
  f_equal. rewrite process_messages_batch, map_app, Hl1, for_each_app.
  rewrite for_each_html_state. simpl map.
  rewrite for_each_cons, Hbad, loop_body_unparsable. reflexivity.
Qed.

(** X18: on a page where [init_observer] has not run, as after the page
    was loaded anew, the first call of [process_messages] logs one error,
    since the probe returns the undefined value, and defines
    [window.newMessages]; no observer is installed, so from then on every
    call finds an empty batch and changes nothing, whatever is added to
    the page. *)
Theorem unobserved_page_goes_silent (c : bool) (st st' : state)
    (mutations : list (list node)) :
  process_page (fresh_page c) st
  = ({| newMessages := Some []; has_container := c; observers := 0 |},
     logged (Fore_RED ++ py "Error processing messages: "
               ++ py "'NoneType' object is not iterable") st)
  /\ process_page
       (deliver mutations
          {| newMessages := Some []; has_container := c; observers := 0 |}) st'
     = ({| newMessages := Some []; has_container := c; observers := 0 |}, st').
Proof. split; reflexivity. Qed.

End MonitorOnPageProperties.

Lemma fragments_after_error_are_lost_witness :
  process_page no_table sample_fromisoformat sample_parser
    {| newMessages := Some ([py "<li>a"] ++ py "x" :: [py "<li>b"]);
       has_container := true; observers := 1 |} init_state
  = ({| newMessages := Some []; has_container := true; observers := 1 |},
     logged (Fore_RED ++ py "Error processing messages: " ++ py "boom")
       (snd (for_each (loop_body no_table sample_fromisoformat)
               (map Html [entry_soup (py "alice") (py "2024-01-01T10:00:00")
                                     (py "<li>a")])
               init_state))).
Proof.
  apply (fragments_after_error_are_lost no_table sample_fromisoformat
           sample_parser [py "<li>a"] [py "<li>b"] (py "x") (py "boom")
           [entry_soup (py "alice") (py "2024-01-01T10:00:00") (py "<li>a")]
           true 1 init_state); vm_compute; reflexivity.
Defined.
